(** * logcleaner: in-place redaction of sensitive tokens in log files

    A shallow embedding of [logcleaner.py] (Python 2: [str] is a byte string,
    [iter(mm.readline, "")] stops at end of file).

    - [Re]      the two compiled patterns and [re.search] on them;
    - [mmap]    the mapped view: [readline], slice read, slice assignment, [flush];
    - [Engine]  [redact_data], its loop and its locals, generic in the two masks;
    - [Fs]      [decompress_file], [compress_file], [log_audit_metadata],
                [clean_file] over a file system of path -> contents;
    - [Pool]    [clean_files] as the collection loop over the pool's results.

    The debug log ([redacted.log]) appears as the engine's trace of events and
    is no file of [Fs]; wall-clock time enters only as the text of the audit
    file's last line. *)

From Stdlib Require Import ZArith Lia List Bool.
From Stdlib Require Import Strings.Byte Strings.String Strings.Ascii DecimalString.
From stdpp Require Import base list gmap strings.

Abbreviation bytes := (list byte).

(** ** Characters the program names *)

Definition quote : byte := x22.
Definition newline : byte := x0a.

Definition is_nl (b : byte) : bool := Byte.eqb b newline.

(** ** Regular expressions (lines 44-47)

    Both patterns are a fixed sequence of literal characters and [\d]; the
    group and [[\-]{1}] add nothing to what [span(0)] returns. *)

Module Re.

Inductive atom :=
| Lit (c : byte)
| Digit.

(** [\d] on a byte string without LOCALE or UNICODE: [0-9]. *)
Definition is_digit (b : byte) : bool :=
  (48 <=? Byte.to_N b)%N && (Byte.to_N b <=? 57)%N.

Definition accepts (a : atom) (b : byte) : bool :=
  match a with
  | Lit c => Byte.eqb c b
  | Digit => is_digit b
  end.

(** The pattern matches a prefix of [l]. *)
Fixpoint match_at (p : list atom) (l : bytes) : bool :=
  match p, l with
  | [], _ => true
  | a :: p', b :: l' => accepts a b && match_at p' l'
  | _ :: _, [] => false
  end.

(** [re.search]: the leftmost position where the pattern matches, as the
    span [(start, end)] of [match.span(0)]. *)
Fixpoint search_from (p : list atom) (l : bytes) (i : nat) : option (nat * nat) :=
  if match_at p l then Some (i, i + length p)
  else match l with
       | [] => None
       | _ :: l' => search_from p l' (S i)
       end.

Definition search (p : list atom) (l : bytes) : option (nat * nat) :=
  search_from p l 0.

Definition lits (s : bytes) : list atom := map Lit s.
Definition digits (n : nat) : list atom := repeat Digit n.
Definition dash : list atom := [Lit "-"%byte].

End Re.

(** [cc_pattern = re.compile(r'(CC="\d{4}[\-]{1}\d{4}[\-]{1}\d{4}[\-]{1}\d{4}")')] *)
Definition cc_pattern : list Re.atom :=
  Re.lits (list_byte_of_string "CC=") ++ [Re.Lit quote]
    ++ Re.digits 4 ++ Re.dash ++ Re.digits 4 ++ Re.dash
    ++ Re.digits 4 ++ Re.dash ++ Re.digits 4 ++ [Re.Lit quote].

(** [ssn_pattern = re.compile(r'(SSN="\d{3}[\-]{1}\d{2}[\-]{1}\d{4}")')] *)
Definition ssn_pattern : list Re.atom :=
  Re.lits (list_byte_of_string "SSN=") ++ [Re.Lit quote]
    ++ Re.digits 3 ++ Re.dash ++ Re.digits 2 ++ Re.dash
    ++ Re.digits 4 ++ [Re.Lit quote].

(** [CC_REPLACE_STR = 'CC="xxxx-xxxx-xxxx-xxxx"'] *)
Definition CC_REPLACE_STR : bytes :=
  list_byte_of_string "CC=" ++ [quote]
    ++ list_byte_of_string "xxxx-xxxx-xxxx-xxxx" ++ [quote].

(** [SSN_REPLACE_STR = 'SSN="xxx-xx-xxxx"'] *)
Definition SSN_REPLACE_STR : bytes :=
  list_byte_of_string "SSN=" ++ [quote]
    ++ list_byte_of_string "xxx-xx-xxxx" ++ [quote].

(** ** Exceptions and logged events *)

Inductive exn :=
| ValueError          (* mmap.mmap(fd, 0): cannot mmap an empty file *)
| IndexError          (* mmap slice assignment is wrong size *)
| IOError             (* open / gzip.open of a missing file; the gzip reader:
                         not a gzipped file, CRC check failed *)
| ZlibError           (* zlib.error: the gzip reader on a corrupt deflate stream *)
| StructError         (* struct.error: the gzip reader on a truncated trailer *)
| TypeError           (* the gzip reader on a truncated header *)
| OSError             (* check_call: gzip could not be started *)
| CalledProcessError. (* check_call: gzip exited with a non-zero status *)

Inductive event :=
| DebugCC (line_no lo hi : nat)    (* LOG.debug, line 131 *)
| DebugSSN (line_no lo hi : nat)   (* LOG.debug, line 139 *)
| Flush (offset size : nat).       (* msync over [offset, offset + size) *)

(** ** The mapped view *)

Record mmap := { mm_data : bytes; mm_pos : nat }.

Definition mm_tell (m : mmap) : nat := mm_pos m.

(** [memchr(start, '\n', n)]: index of the first line feed. *)
Fixpoint memchr_nl (l : bytes) : option nat :=
  match l with
  | [] => None
  | b :: l' => if is_nl b then Some 0 else option_map S (memchr_nl l')
  end.

(** Length of the line that starts [l]: through the first line feed, or
    to the end of the view when there is none. *)
Definition eol (l : bytes) : nat :=
  match memchr_nl l with
  | Some i => S i
  | None => length l
  end.

(** [mm.readline()]: the bytes from the cursor through the next line feed
    (or the end); the cursor moves past them. At the end it returns [""]. *)
Definition mm_readline (m : mmap) : bytes * mmap :=
  let rest := drop (mm_pos m) (mm_data m) in
  let n := eol rest in
  (take n rest, {| mm_data := mm_data m; mm_pos := mm_pos m + n |}).

(** [mm[a:b]] read, with Python's clipping of the bounds. *)
Definition mm_getslice (m : mmap) (a b : nat) : bytes :=
  drop a (take b (mm_data m)).

(** [mm[a:b] = v]: the bounds are clipped to the view, and the assignment
    raises [IndexError] unless [v] has exactly the slice's length; otherwise
    the bytes are copied over the slice. The view never changes size. *)
Definition mm_setslice (m : mmap) (a b : nat) (v : bytes) : exn + mmap :=
  let size := length (mm_data m) in
  let start := Nat.min a size in
  let stop := Nat.min b size in
  let slicelen := stop - start in
  if Nat.eqb (length v) slicelen
  then inr {| mm_data := take start (mm_data m) ++ v ++ drop (start + slicelen) (mm_data m);
              mm_pos := mm_pos m |}
  else inl IndexError.

(** [mm.flush()] with no argument: the whole extent of the mapping. *)
Definition mm_flush (m : mmap) : event := Flush 0 (length (mm_data m)).

(** ** redact_data (lines 87-164) *)

(** The audit dictionary, one field per key (the elapsed time apart). *)
Record audit_metadata := {
  total_lines_redacted : nat;
  total_lines_processed : nat;
  total_cc_lines_redacted : nat;
  total_ssn_lines_redacted : nat }.

(** The local variables of [redact_data] and the events emitted so far. *)
Record locals := {
  mm : mmap;
  lines_redacted : nat;
  cc_redactions : nat;
  ssn_redactions : nat;
  line_count : nat;
  current_line_offset : nat;
  next_line_offset : nat;
  trace : list event }.

(** How the scan ended; an exception leaves the view as it was when raised. *)
Inductive run :=
| Finished (st : locals)
| Raised (e : exn) (st : locals)
| OutOfFuel.

(** What a call of [redact_data] leaves behind: the file's bytes, the events,
    and the returned dictionary or the exception. *)
Record pass := {
  file_after : bytes;
  events : list event;
  returned : exn + audit_metadata }.

Section Engine.

(** The two masks are module constants; the engine is written over them so
    that the size check of the overwrite can be stated for any mask. *)
Variable cc_mask ssn_mask : bytes.

(** Lines 128-134: the credit-card match and overwrite, then the re-read of
    the line from the view. Returns the line the SSN matcher will see. *)
Definition cc_step (line : bytes) (st : locals) : (exn * locals) + (bytes * bool * locals) :=
  match Re.search cc_pattern line with
  | Some (match_start_i, match_end_i) =>
      let lo := current_line_offset st + match_start_i in
      let hi := current_line_offset st + match_end_i in
      let tr := trace st ++ [DebugCC (line_count st) lo hi] in
      match mm_setslice (mm st) lo hi cc_mask with
      | inl e =>
          inl (e, {| mm := mm st; lines_redacted := lines_redacted st;
                     cc_redactions := cc_redactions st;
                     ssn_redactions := ssn_redactions st;
                     line_count := line_count st;
                     current_line_offset := current_line_offset st;
                     next_line_offset := next_line_offset st; trace := tr |})
      | inr m =>
          inr (mm_getslice m (current_line_offset st) (next_line_offset st), true,
               {| mm := m; lines_redacted := lines_redacted st;
                  cc_redactions := cc_redactions st + 1;
                  ssn_redactions := ssn_redactions st;
                  line_count := line_count st;
                  current_line_offset := current_line_offset st;
                  next_line_offset := next_line_offset st; trace := tr |})
      end
  | None => inr (line, false, st)
  end.

(** Lines 136-141: the SSN match and overwrite. *)
Definition ssn_step (line : bytes) (st : locals) : (exn * locals) + (bool * locals) :=
  match Re.search ssn_pattern line with
  | Some (match_start_i, match_end_i) =>
      let lo := current_line_offset st + match_start_i in
      let hi := current_line_offset st + match_end_i in
      let tr := trace st ++ [DebugSSN (line_count st) lo hi] in
      match mm_setslice (mm st) lo hi ssn_mask with
      | inl e =>
          inl (e, {| mm := mm st; lines_redacted := lines_redacted st;
                     cc_redactions := cc_redactions st;
                     ssn_redactions := ssn_redactions st;
                     line_count := line_count st;
                     current_line_offset := current_line_offset st;
                     next_line_offset := next_line_offset st; trace := tr |})
      | inr m =>
          inr (true,
               {| mm := m; lines_redacted := lines_redacted st;
                  cc_redactions := cc_redactions st;
                  ssn_redactions := ssn_redactions st + 1;
                  line_count := line_count st;
                  current_line_offset := current_line_offset st;
                  next_line_offset := next_line_offset st; trace := tr |})
      end
  | None => inr (false, st)
  end.

(** Lines 143-148: count the line, flush if it was redacted, move on. *)
Definition end_of_line (cc_match ssn_match : bool) (st : locals) : locals :=
  let redacted := cc_match || ssn_match in
  {| mm := mm st;
     lines_redacted := if redacted then lines_redacted st + 1 else lines_redacted st;
     cc_redactions := cc_redactions st;
     ssn_redactions := ssn_redactions st;
     line_count := line_count st + 1;
     current_line_offset := next_line_offset st;
     next_line_offset := next_line_offset st;
     trace := if redacted then trace st ++ [mm_flush (mm st)] else trace st |}.

(** The body of the [for] loop (lines 126-148), [m] being the view after
    the [readline] that produced [line]. *)
Definition loop_body (line : bytes) (m : mmap) (st : locals) : run :=
  let st0 := {| mm := m; lines_redacted := lines_redacted st;
                cc_redactions := cc_redactions st;
                ssn_redactions := ssn_redactions st;
                line_count := line_count st;
                current_line_offset := current_line_offset st;
                next_line_offset := mm_tell m; trace := trace st |} in
  match cc_step line st0 with
  | inl (e, st1) => Raised e st1
  | inr (line1, cc_match, st1) =>
      match ssn_step line1 st1 with
      | inl (e, st2) => Raised e st2
      | inr (ssn_match, st2) => Finished (end_of_line cc_match ssn_match st2)
      end
  end.

(** [for line in iter(mm.readline, "")]: one unit of fuel per [readline]. *)
Fixpoint redact_loop (fuel : nat) (st : locals) : run :=
  match fuel with
  | O => OutOfFuel
  | S fuel' =>
      let (line, m) := mm_readline (mm st) in
      match line with
      | [] => Finished st
      | _ :: _ =>
          match loop_body line m st with
          | Finished st' => redact_loop fuel' st'
          | r => r
          end
      end
  end.

(** Lines 114-123: the state at the head of the loop. *)
Definition initial (contents : bytes) : locals :=
  {| mm := {| mm_data := contents; mm_pos := 0 |};
     lines_redacted := 0; cc_redactions := 0; ssn_redactions := 0;
     line_count := 1;
     current_line_offset := 0; next_line_offset := 0; trace := [] |}.

(** Lines 159-163. *)
Definition audit_of (st : locals) : audit_metadata :=
  {| total_lines_redacted := lines_redacted st;
     total_lines_processed := line_count st;
     total_cc_lines_redacted := cc_redactions st;
     total_ssn_lines_redacted := ssn_redactions st |}.

(** [redact_data] on a file holding [contents]. Every line consumes at least
    one byte, so [length contents] iterations and one last [readline] are
    all the loop can take; [None] stands for a scan that needed more. *)
Definition redact_data_with (contents : bytes) : option pass :=
  match contents with
  | [] => Some {| file_after := contents; events := []; returned := inl ValueError |}
  | _ :: _ =>
      match redact_loop (S (length contents)) (initial contents) with
      | Finished st =>
          Some {| file_after := mm_data (mm st); events := trace st;
                  returned := inr (audit_of st) |}
      | Raised e st =>
          Some {| file_after := mm_data (mm st); events := trace st;
                  returned := inl e |}
      | OutOfFuel => None
      end
  end.

End Engine.

Definition redact_data : bytes -> option pass :=
  redact_data_with CC_REPLACE_STR SSN_REPLACE_STR.

(** ** Files, archives and the audit file (lines 75-85, 166-200) *)

Module Fs.

Abbreviation fs := (gmap string bytes).

(** [str.rfind]: the highest index of [c], or -1. *)
Fixpoint rfind_from (c : ascii) (l : list ascii) (i : Z) : Z :=
  match l with
  | [] => (-1)%Z
  | a :: l' =>
      let r := rfind_from c l' (i + 1)%Z in
      if (0 <=? r)%Z then r else if Ascii.eqb a c then i else (-1)%Z
  end.

Definition rfind (c : ascii) (l : list ascii) : Z := rfind_from c l 0.

(** [os.path.splitext] (posixpath: separator [/], no alternative separator).
    The extension starts at the last dot of the last component, unless that
    component has nothing but dots before it. *)
Definition splitext (p : string) : string * string :=
  let l := list_ascii_of_string p in
  let sepIndex := rfind "/"%char l in
  let dotIndex := rfind "."%char l in
  if (sepIndex <? dotIndex)%Z then
    let filenameIndex := Z.to_nat (sepIndex + 1) in
    let d := Z.to_nat dotIndex in
    if forallb (Ascii.eqb "."%char) (drop filenameIndex (take d l))
    then (p, EmptyString)
    else (string_of_list_ascii (take d l), string_of_list_ascii (drop d l))
  else (p, EmptyString).

(** Line 36: the file the module's logger appends to. *)
Definition LOG_FILE : string := "redacted.log".

(** [str(n)] for a non-negative integer. *)
Definition str_of_nat (n : nat) : bytes :=
  list_byte_of_string (NilEmpty.string_of_uint (Nat.to_uint n)).

(** The [LOG.debug] calls of a pass, by call site, with their arguments. *)
Inductive log_call :=
| Starting_processing (log_file : string)                                (* line 81 *)
| Redacting_file (dec_logfile : string)                                  (* line 113 *)
| Redacting_cc (line_count : nat) (dec_logfile : string) (lo hi : nat)   (* line 131 *)
| Redacting_ssn (line_count : nat) (dec_logfile : string) (lo hi : nat)  (* line 139 *)
| Total_processed (dec_logfile : string) (line_count : nat)              (* line 154 *)
| Total_redacted (dec_logfile : string) (lines_redacted : nat)           (* line 155 *)
| Total_ssn_redacted (dec_logfile : string) (ssn_redactions : nat)       (* line 156 *)
| Total_cc_redacted (dec_logfile : string) (cc_redactions : nat)         (* line 157 *)
| Total_time (dec_logfile : string) (elapsed : bytes).                   (* line 158 *)

(** The message of a call, its arguments filled in. *)
Definition message (call : log_call) : bytes :=
  match call with
  | Starting_processing f =>
      list_byte_of_string "Starting processing on file " ++ list_byte_of_string f
  | Redacting_file f =>
      list_byte_of_string "Redacting sensitive information on file "
      ++ list_byte_of_string f
  | Redacting_cc n f lo hi =>
      list_byte_of_string "Redacting line " ++ str_of_nat n
      ++ list_byte_of_string " of file " ++ list_byte_of_string f
      ++ list_byte_of_string " containing Credit Card sensitive data. Offset slice ["
      ++ str_of_nat lo ++ list_byte_of_string ", " ++ str_of_nat hi
      ++ list_byte_of_string "]"
  | Redacting_ssn n f lo hi =>
      list_byte_of_string "Redacting line " ++ str_of_nat n
      ++ list_byte_of_string " of file " ++ list_byte_of_string f
      ++ list_byte_of_string " containing SSN sensitive data. Offset slice ["
      ++ str_of_nat lo ++ list_byte_of_string ", " ++ str_of_nat hi
      ++ list_byte_of_string "]"
  | Total_processed f n =>
      list_byte_of_string "Total lines processed for file " ++ list_byte_of_string f
      ++ list_byte_of_string " : " ++ str_of_nat n
  | Total_redacted f n =>
      list_byte_of_string "Total lines redacted for file " ++ list_byte_of_string f
      ++ list_byte_of_string " : " ++ str_of_nat n
  | Total_ssn_redacted f n =>
      list_byte_of_string "Total lines with SSN redacted for file "
      ++ list_byte_of_string f ++ list_byte_of_string " : " ++ str_of_nat n
  | Total_cc_redacted f n =>
      list_byte_of_string "Total lines with CC redacted for file "
      ++ list_byte_of_string f ++ list_byte_of_string " : " ++ str_of_nat n
  | Total_time f elapsed =>
      list_byte_of_string "Total time spent redacting file " ++ list_byte_of_string f
      ++ list_byte_of_string ": " ++ elapsed
  end.

(** A run of [gzip -S .redacted.gz name]. If the program runs, it either
    writes [name.redacted.gz] and removes [name], or leaves both as they
    are (with a message), and it exits with a return code; it touches no
    other file. *)
Inductive gzip_run :=
| Not_started
| Exited (archive : option bytes) (returncode : Z).

(** What a pass takes from outside the program. [gzip_read] gives the
    bytes the gzip reader yields from an archive and whether it reached
    the end without an error, [gzip_error] the exception it raises when it
    did not, [gzip_write] the archive of some bytes. [gzip] is the [gzip]
    program: what it does with an operand, given the operand's contents
    (if the file exists) and whether the target exists. [logger_name] and
    [asctime] are the name of the logger and the time stamp of a record. *)
Record env := {
  gzip_read : bytes -> bytes * bool;
  gzip_error : bytes -> exn;
  gzip_write : bytes -> bytes;
  gzip : string -> option bytes -> bool -> gzip_run;
  logger_name : bytes;
  asctime : log_call -> bytes }.

(** Lines 39-42: the format of a record,
    [%(name)s (%(levelname)s) %(asctime)s %(message)s]. *)
Definition record (c : env) (call : log_call) : bytes :=
  logger_name c ++ list_byte_of_string " (DEBUG) " ++ asctime c call
  ++ list_byte_of_string " " ++ message call ++ [newline].

(** [LOG.debug]: the handler set up by [basicConfig] appends the record to
    [LOG_FILE] and flushes. *)
Definition LOG_debug (c : env) (call : log_call) (s : fs) : fs :=
  <[LOG_FILE := default [] (s !! LOG_FILE) ++ record c call]> s.

(** Lines 166-177. [gzip.open] opens the archive at once; [open(.., 'wb')]
    creates or truncates the target before the first byte is copied. *)
Definition decompress_file (c : env) (comp_logfile_name : string) (s : fs)
  : fs * (exn + string) :=
  let dec_logfile_name := fst (splitext comp_logfile_name) in
  match s !! comp_logfile_name with
  | None => (s, inl IOError)
  | Some _ =>
      let s1 := <[dec_logfile_name := []]> s in
      let (out, ok) := gzip_read c (default [] (s1 !! comp_logfile_name)) in
      let s2 := <[dec_logfile_name := out]> s1 in
      if ok then (s2, inr dec_logfile_name)
      else (s2, inl (gzip_error c (default [] (s1 !! comp_logfile_name))))
  end.

(** The record a logged event of the scan stands for. *)
Definition log_of_event (dec_logfile : string) (e : event) : option log_call :=
  match e with
  | DebugCC n lo hi => Some (Redacting_cc n dec_logfile lo hi)
  | DebugSSN n lo hi => Some (Redacting_ssn n dec_logfile lo hi)
  | Flush _ _ => None
  end.

Definition LOG_events (c : env) (dec_logfile : string) (evs : list event) (s : fs) : fs :=
  foldl (fun s e => match log_of_event dec_logfile e with
                    | Some call => LOG_debug c call s
                    | None => s
                    end) s evs.

(** Lines 154-158. *)
Definition LOG_totals (c : env) (elapsed : bytes) (dec_logfile : string)
    (a : audit_metadata) (s : fs) : fs :=
  LOG_debug c (Total_time dec_logfile elapsed)
    (LOG_debug c (Total_cc_redacted dec_logfile (total_cc_lines_redacted a))
       (LOG_debug c (Total_ssn_redacted dec_logfile (total_ssn_lines_redacted a))
          (LOG_debug c (Total_redacted dec_logfile (total_lines_redacted a))
             (LOG_debug c (Total_processed dec_logfile (total_lines_processed a)) s)))).

(** [redact_data] on the file at [dec_logfile] (lines 111-164). The file is
    opened, the first record is logged, and then the file is mapped: the
    view is shared with the bytes the file has at that moment, so what the
    scan leaves in the view is what the file holds there, and the records
    logged during the scan are appended to [LOG_FILE] past any view. The
    totals are logged only when the scan ended without an exception. *)
Definition redact_data_at (c : env) (elapsed : bytes) (dec_logfile : string) (s : fs)
  : option (fs * (exn + audit_metadata)) :=
  match s !! dec_logfile with
  | None => Some (s, inl IOError)
  | Some _ =>
      let s1 := LOG_debug c (Redacting_file dec_logfile) s in
      p ← redact_data (default [] (s1 !! dec_logfile));
      let s2 := LOG_events c dec_logfile (events p) (<[dec_logfile := file_after p]> s1) in
      match returned p with
      | inl e => Some (s2, inl e)
      | inr a => Some (LOG_totals c elapsed dec_logfile a s2, inr a)
      end
  end.

Definition redacted_suffix : string := ".redacted.gz".

(** Lines 179-185: [check_call(['gzip', '-S', '.redacted.gz', name])] runs
    the program and raises [CalledProcessError] when its return code is
    not zero, [OSError] when it cannot be run. *)
Definition compress_file (c : env) (decomp_logfile_name : string) (s : fs)
  : fs * (exn + unit) :=
  let target := (decomp_logfile_name ++ redacted_suffix)%string in
  let target_exists := match s !! target with Some _ => true | None => false end in
  match gzip c decomp_logfile_name (s !! decomp_logfile_name) target_exists with
  | Not_started => (s, inl OSError)
  | Exited archive returncode =>
      let s' := match archive with
                | Some z => delete decomp_logfile_name (<[target := z]> s)
                | None => s
                end in
      if (returncode =? 0)%Z then (s', inr tt) else (s', inl CalledProcessError)
  end.


(** Lines 187-200: five lines appended to [logfile_name + '.audit'];
    [elapsed] is the text of the time spent. *)
Definition audit_text (elapsed : bytes) (a : audit_metadata) : bytes :=
  list_byte_of_string "Total number of lines processed: "
    ++ str_of_nat (total_lines_processed a) ++ [newline]
  ++ list_byte_of_string "Total number of lines redacted: "
    ++ str_of_nat (total_lines_redacted a) ++ [newline]
  ++ list_byte_of_string "Total number of lines with Credit Card data redacted: "
    ++ str_of_nat (total_cc_lines_redacted a) ++ [newline]
  ++ list_byte_of_string "Total number of lines with SSN data redacted: "
    ++ str_of_nat (total_ssn_lines_redacted a) ++ [newline]
  ++ list_byte_of_string "Total time spent redacting: " ++ elapsed ++ [newline].

Definition log_audit_metadata (elapsed : bytes) (logfile_name : string)
    (a : audit_metadata) (s : fs) : fs :=
  let filename := (logfile_name ++ ".audit")%string in
  <[filename := default [] (s !! filename) ++ audit_text elapsed a]> s.

(** Lines 75-85: log the start, decompress, redact, recompress, report; an
    exception of any step ends the pass there. *)
Definition clean_file (c : env) (elapsed : bytes) (log_file : string) (s : fs)
  : option (fs * (exn + unit)) :=
  let s0 := LOG_debug c (Starting_processing log_file) s in
  match decompress_file c log_file s0 with
  | (s1, inl e) => Some (s1, inl e)
  | (s1, inr dec_logfile) =>
      r ← redact_data_at c elapsed dec_logfile s1;
      match r with
      | (s2, inl e) => Some (s2, inl e)
      | (s2, inr audit_metadata_dict) =>
          match compress_file c dec_logfile s2 with
          | (s3, inl e) => Some (s3, inl e)
          | (s3, inr _) =>
              Some (log_audit_metadata elapsed dec_logfile audit_metadata_dict s3, inr tt)
          end
      end
  end.

End Fs.

(** ** clean_files (lines 59-73)

    Every file is handed to the pool first; then the results are collected
    in list order. [job.get()] returns the pass's value or re-raises what the
    pass raised, and nothing in [clean_files] catches it. *)

Module Pool.

Record batch := {
  collected : nat;          (* calls of [job.get()] made *)
  pool_closed : bool;       (* [pool.close()] reached *)
  raised : option exn }.    (* the exception [clean_files] ends with *)

Fixpoint wait_all (jobs : list (exn + unit)) (n : nat) : nat * option exn :=
  match jobs with
  | [] => (n, None)
  | inl e :: _ => (S n, Some e)
  | inr _ :: jobs' => wait_all jobs' (S n)
  end.

Section Workers.

(** What [pool.apply_async(clean_file, (fil,))] holds for [job.get()] once
    the worker is done with [fil]. *)
Variable worker : string -> exn + unit.

Definition clean_files (files_list : list string) : batch :=
  let jobs := map worker files_list in
  match wait_all jobs 0 with
  | (n, None) => {| collected := n; pool_closed := true; raised := None |}
  | (n, Some e) => {| collected := n; pool_closed := false; raised := Some e |}
  end.

End Workers.

End Pool.

(** ** Lines, tokens and the line-by-line reading of the scan *)

(** The lines of a view, each with its line feed; the last one may lack it.
    These are the values successive [readline] calls return. *)
Fixpoint lines (l : bytes) : list bytes :=
  match l with
  | [] => []
  | b :: l' =>
      if is_nl b then [b] :: lines l'
      else match lines l' with
           | [] => [[b]]
           | ln :: lns => (b :: ln) :: lns
           end
  end.

(** A token of pattern [p] starts at offset [k] of [l]. *)
Definition token_at (p : list Re.atom) (l : bytes) (k : nat) : Prop :=
  Re.match_at p (drop k l) = true.

Definition has_token (p : list Re.atom) (l : bytes) : Prop :=
  exists k, token_at p l k.

(** The token [re.search] honours: the leftmost one. *)
Definition first_token (p : list Re.atom) (l : bytes) (s : nat) : Prop :=
  token_at p l s /\ forall k, k < s -> ~ token_at p l k.

(** At most one token of the pattern (one customer record per line). *)
Definition at_most_one_token (p : list Re.atom) (l : bytes) : Prop :=
  forall i j, token_at p l i -> token_at p l j -> i = j.

(** [v] written over [l] from offset [s]. *)
Definition overwrite (l : bytes) (s : nat) (v : bytes) : bytes :=
  take s l ++ v ++ drop (s + length v) l.

(** Offset in the file of its [i]-th line. *)
Definition line_offset (contents : bytes) (i : nat) : nat :=
  length (concat (take i (lines contents))).

Section LineLevel.

Variable cc_mask ssn_mask : bytes.

(** The line after the credit-card overwrite: what the re-read returns. *)
Definition after_cc (l : bytes) : bytes :=
  match Re.search cc_pattern l with
  | Some (s, _) => overwrite l s cc_mask
  | None => l
  end.

Definition after_ssn (l : bytes) : bytes :=
  match Re.search ssn_pattern l with
  | Some (s, _) => overwrite l s ssn_mask
  | None => l
  end.

Definition redact_line_with (l : bytes) : bytes := after_ssn (after_cc l).

Definition cc_hit (l : bytes) : bool :=
  match Re.search cc_pattern l with Some _ => true | None => false end.

Definition ssn_hit (l : bytes) : bool :=
  match Re.search ssn_pattern (after_cc l) with Some _ => true | None => false end.

(** The events of one line that starts at offset [off] of a view of [size]
    bytes and is numbered [line_no]. *)
Definition line_events (size line_no off : nat) (l : bytes) : list event :=
  match Re.search cc_pattern l with
  | Some (s, e) => [DebugCC line_no (off + s) (off + e)]
  | None => []
  end ++
  match Re.search ssn_pattern (after_cc l) with
  | Some (s, e) => [DebugSSN line_no (off + s) (off + e)]
  | None => []
  end ++
  (if cc_hit l || ssn_hit l then [Flush 0 size] else []).

Fixpoint events_of (size line_no off : nat) (ls : list bytes) : list event :=
  match ls with
  | [] => []
  | l :: ls' =>
      line_events size line_no off l ++ events_of size (S line_no) (off + length l) ls'
  end.

(** One turn of the loop on line [l], read off the locals. *)
Definition after_line (l : bytes) (st : locals) : locals :=
  let cur := current_line_offset st in
  let data := mm_data (mm st) in
  {| mm := {| mm_data := take cur data ++ redact_line_with l ++ drop (cur + length l) data;
              mm_pos := cur + length l |};
     lines_redacted :=
       if cc_hit l || ssn_hit l then lines_redacted st + 1 else lines_redacted st;
     cc_redactions := if cc_hit l then cc_redactions st + 1 else cc_redactions st;
     ssn_redactions := if ssn_hit l then ssn_redactions st + 1 else ssn_redactions st;
     line_count := line_count st + 1;
     current_line_offset := cur + length l;
     next_line_offset := cur + length l;
     trace := trace st ++ line_events (length data) (line_count st) cur l |}.

Definition after_lines (ls : list bytes) (st : locals) : locals :=
  fold_left (fun st l => after_line l st) ls st.

End LineLevel.

Definition redact_line : bytes -> bytes :=
  redact_line_with CC_REPLACE_STR SSN_REPLACE_STR.

(** How many lines satisfy [f]. *)
Definition count_lines (f : bytes -> bool) (ls : list bytes) : nat :=
  length (List.filter f ls).

(** ** Patterns that cannot overlap

    [clash p q]: some position within both patterns accepts no common byte,
    so no text matches [p] and [q] from the same offset. *)

Definition atom_clash (a b : Re.atom) : bool :=
  match a, b with
  | Re.Lit c, Re.Lit d => negb (Byte.eqb c d)
  | Re.Lit c, Re.Digit | Re.Digit, Re.Lit c => negb (Re.is_digit c)
  | Re.Digit, Re.Digit => false
  end.

Fixpoint clash (p q : list Re.atom) : bool :=
  match p, q with
  | a :: p', b :: q' => atom_clash a b || clash p' q'
  | _, _ => false
  end.

(** No window of [p] that starts inside a text of shape [q] matches ... *)
Definition no_start_inside (p q : list Re.atom) (from : nat) : bool :=
  forallb (fun d => clash p (drop d q)) (seq from (length q - from)).

(** ... and none that starts before it and reaches into it. *)
Definition no_reach_into (p q : list Re.atom) : bool :=
  forallb (fun d => clash (drop d p) q) (seq 1 (length p - 1)).

Definition isolated (p q : list Re.atom) : bool :=
  no_start_inside p q 0 && no_reach_into p q.

(** The same for a pattern against its own tokens: only the exact overlap
    is possible. *)
Definition unbordered (p : list Re.atom) : bool :=
  no_start_inside p p 1 && no_reach_into p p.

(** ** Line feeds in patterns and masks *)

Definition rejects_nl (q : list Re.atom) : bool :=
  forallb (fun a => negb (Re.accepts a newline)) q.

Definition nl_free (v : bytes) : bool := forallb (fun b => negb (is_nl b)) v.

(** ** The one-record-per-line assumption, decided *)

(** The offsets of the tokens of a line, for deciding [at_most_one_token]. *)
Definition token_offsets (p : list Re.atom) (l : bytes) : list nat :=
  List.filter (fun k => Re.match_at p (drop k l)) (seq 0 (S (length l))).

(** ** The scan for any pair of masks *)

(** The state a turn of the loop hands to the next one. *)
Definition at_line_start (pre post : bytes) (st : locals) : Prop :=
  mm_data (mm st) = pre ++ post /\ mm_pos (mm st) = length pre
  /\ current_line_offset st = length pre.

(** A mask that has not the length of the spans of its pattern. *)
Definition size_fault (cc_mask ssn_mask : bytes) : Prop :=
  length cc_mask <> length cc_pattern \/ length ssn_mask <> length ssn_pattern.

(** ** Sample files *)

Definition text (s : string) : bytes := list_byte_of_string s.

(** [user=42 CC="1234-5678-9012-3456" action=login], then a line [plain]. *)
Definition login_line : bytes :=
  text "user=42 CC=" ++ [quote] ++ text "1234-5678-9012-3456" ++ [quote]
    ++ text " action=login" ++ [newline].

Definition login_file : bytes := login_line ++ text "plain".

(** [SSN="123-45-6789" CC="1111-2222-3333-4444"] *)
Definition both_line : bytes :=
  text "SSN=" ++ [quote] ++ text "123-45-6789" ++ [quote] ++ text " CC=" ++ [quote]
    ++ text "1111-2222-3333-4444" ++ [quote] ++ [newline].

(** Two card numbers on one line. *)
Definition two_cards : bytes :=
  text "CC=" ++ [quote] ++ text "1111-2222-3333-4444" ++ [quote] ++ text " CC=" ++ [quote]
    ++ text "5555-6666-7777-8888" ++ [quote] ++ [newline].

(** ** Flushes and the pages they cover *)

Definition is_flush (e : event) : bool :=
  match e with Flush _ _ => true | _ => false end.

(** The pages (of [page] bytes) that hold the spans written: from the first
    byte of the lowest one to one past the last byte of the highest. *)
Definition page_range (page : nat) (spans : list (nat * nat)) : nat * nat :=
  match spans with
  | [] => (0, 0)
  | (lo, hi) :: rest =>
      fold_left (fun '(a, b) '(lo', hi') =>
                   (Nat.min a (lo' / page * page), Nat.max b (((hi' - 1) / page + 1) * page)))
                rest (lo / page * page, ((hi - 1) / page + 1) * page)
  end.

(** Every flush stays within the pages written since the flush before it
    (each debug event carries the span of the overwrite that follows it). *)
Fixpoint flushes_written_pages_only (page : nat) (spans : list (nat * nat))
    (evs : list event) : bool :=
  match evs with
  | [] => true
  | DebugCC _ lo hi :: evs' | DebugSSN _ lo hi :: evs' =>
      flushes_written_pages_only page ((lo, hi) :: spans) evs'
  | Flush off size :: evs' =>
      let (a, b) := page_range page spans in
      (a <=? off) && (off + size <=? b) && flushes_written_pages_only page [] evs'
  end.

(** A redacted first line followed by 5000 bytes that hold no token. *)
Definition long_file : bytes := login_line ++ repeat "a"%byte (50 * 100).

(** What one line contributes to the trace. *)
Definition line_trace (size : nat) (line : bytes) (ev : list event) : Prop :=
  (~ has_token cc_pattern line -> ~ has_token ssn_pattern line -> ev = [])
  /\ (has_token cc_pattern line \/ has_token ssn_pattern line ->
      exists dbg, ev = dbg ++ [Flush 0 size] /\ Forall (fun e => is_flush e = false) dbg).

(** ** Stand-ins for the examples *)

(** A mask without the two quotes: 22 bytes for a span of 24. *)
Definition short_mask : bytes := text "CC=xxxx-xxxx-xxxx-xxxx".

(** The stand-in environment of the examples. An archive stores its
    contents as they are. Its [gzip] refuses a missing operand (return code
    1), leaves an operand whose name already has an archive suffix (return
    code 0) or whose target exists (return code 2), and compresses any
    other. *)
Definition gzip_suffixes : list string :=
  [Fs.redacted_suffix; ".gz"; ".z"; ".taz"; ".tgz"; "-gz"; "-z"; "_z"]%string.

Fixpoint starts_with (x l : list ascii) : option (list ascii) :=
  match x with
  | [] => Some l
  | a :: x' =>
      match l with
      | b :: l' => if Ascii.eqb a b then starts_with x' l' else None
      | [] => None
      end
  end.

(** [name] ends in [sfx], with something other than [/] before it. *)
Definition has_suffix (name sfx : string) : bool :=
  match starts_with (rev (list_ascii_of_string sfx)) (rev (list_ascii_of_string name)) with
  | Some (a :: _) => negb (Ascii.eqb a "/"%char)
  | _ => false
  end.

Definition sample_gzip (name : string) (operand : option bytes) (target_exists : bool)
  : Fs.gzip_run :=
  match operand with
  | None => Fs.Exited None 1
  | Some contents =>
      if existsb (has_suffix name) gzip_suffixes then Fs.Exited None 0
      else if target_exists then Fs.Exited None 2
      else Fs.Exited (Some contents) 0
  end.

Definition stored : Fs.env :=
  {| Fs.gzip_read := fun b => (b, true);
     Fs.gzip_error := fun _ => IOError;
     Fs.gzip_write := fun b => b;
     Fs.gzip := sample_gzip;
     Fs.logger_name := text "__main__";
     Fs.asctime := fun _ => text "01/01/2020 12:00:00 AM" |}.

(** Sample file systems: a decompressed log, an archive of it, and an
    archive of nothing. *)
Definition fs_log : gmap string bytes := {[ "log"%string := login_file ]}.
Definition fs_archive : gmap string bytes := {[ "log.gz"%string := login_file ]}.
Definition fs_empty_archive : gmap string bytes := {[ "empty.gz"%string := [] ]}.

(** The pass of each file on its own, as the worker of the examples. *)
Definition pass_of (c : Fs.env) (s : gmap string bytes) (fil : string) : exn + unit :=
  match Fs.clean_file c [] fil s with
  | Some (_, r) => r
  | None => inr tt
  end.

(** ** main (lines 202-214) *)

Module Main.

Inductive level := ERROR | DEBUG.

(** How the program ends: what it logged first, the batch it ran (if any)
    and the exit status of the process. [sys.exit()] without an argument
    exits with status 0; an exception nothing catches ends the interpreter
    with status 1. *)
Record ending := {
  logged : level;
  batch : option Pool.batch;
  exit_status : nat }.

Section Workers.

Variable worker : string -> exn + unit.

Definition main (argv : list string) : ending :=
  let num_files := length argv in
  if num_files <? 2
  then {| logged := ERROR; batch := None; exit_status := 0 |}
  else
    let b := Pool.clean_files worker (drop 1 argv) in
    {| logged := DEBUG; batch := Some b;
       exit_status := match Pool.raised b with None => 0 | Some _ => 1 end |}.

End Workers.

End Main.

(** ** Lines that end in a line feed *)

(** Every line but the last ends in a line feed. *)
Fixpoint all_but_last_terminated (ls : list bytes) : Prop :=
  match ls with
  | [] => True
  | l :: ls' =>
      match ls' with
      | [] => True
      | _ :: _ => last l = Some newline /\ all_but_last_terminated ls'
      end
  end.

(** The number of line feeds of a file. *)
Definition count_nl (l : bytes) : nat := length (List.filter is_nl l).

(** What the pass leaves of the tokens of a line: all but the leftmost. *)
Definition survives (p : list Re.atom) (l : bytes) (k : nat) : Prop :=
  token_at p l k /\ ~ first_token p l k.

(** * Properties *)

(** ** Matching and searching *)

Lemma match_at_length p l : Re.match_at p l = true -> length p <= length l.
Proof.
  revert l; induction p as [|a p IH]; intros [|b l]; cbn; try lia; try discriminate.
  intros [_ H]%andb_prop. apply IH in H. lia.
Qed.

Lemma match_at_lookup p l :
  Re.match_at p l = true <->
  forall i a, p !! i = Some a -> exists b, l !! i = Some b /\ Re.accepts a b = true.
Proof.
  revert l; induction p as [|a p IH]; intros l; cbn.
  - split; [intros _ i a H; destruct i; discriminate | done].
  - destruct l as [|b l].
    + split; [discriminate|]. intros H. destruct (H 0 a eq_refl) as (b & Hb & _). discriminate.
    + rewrite andb_true_iff, IH. split.
      * intros [Ha H] [|i] a'; cbn; [intros [= <-]; eauto | apply H].
      * intros H. split.
        -- destruct (H 0 a eq_refl) as (b' & [= <-] & Hb). done.
        -- intros i a' Hi. apply (H (S i) a' Hi).
Qed.

Lemma match_at_ext p l l' :
  (forall i, i < length p -> l !! i = l' !! i) ->
  Re.match_at p l = Re.match_at p l'.
Proof.
  intros H. apply eq_true_iff_eq. rewrite !match_at_lookup.
  split; intros M i a Hi; destruct (M i a Hi) as (b & Hb & Hacc); exists b; split; auto.
  - rewrite <- H; [done | by eapply lookup_lt_Some].
  - rewrite H; [done | by eapply lookup_lt_Some].
Qed.

Lemma match_at_drop p l d :
  Re.match_at p l = true -> Re.match_at (drop d p) (drop d l) = true.
Proof.
  rewrite !match_at_lookup. intros M i a. rewrite !lookup_drop. apply M.
Qed.

Lemma match_at_lits v l :
  Re.match_at (Re.lits v) l = true <-> take (length v) l = v.
Proof.
  revert l; induction v as [|c v IH]; intros l; cbn.
  - by rewrite take_0.
  - destruct l as [|b l]; cbn; [split; discriminate|].
    rewrite andb_true_iff, IH. split.
    + intros [E ->]. by apply byte_dec_bl in E as ->.
    + intros [= -> ->]. split; [by apply byte_dec_lb | done].
Qed.

Lemma search_from_Some p l i s e :
  Re.search_from p l i = Some (s, e) <->
  exists k, s = i + k /\ e = s + length p /\ Re.match_at p (drop k l) = true
            /\ forall j, j < k -> Re.match_at p (drop j l) = false.
Proof.
  revert i; induction l as [|b l IH]; intros i; cbn.
  - destruct (Re.match_at p []) eqn:M.
    + split.
      * intros [= <- <-]. exists 0. rewrite Nat.add_0_r. repeat split; auto. lia.
      * intros (k & -> & -> & Hk & Hlt). destruct k; [by rewrite Nat.add_0_r|].
        specialize (Hlt 0 ltac:(lia)). cbn in Hlt. congruence.
    + split; [discriminate|]. intros (k & _ & _ & Hk & _). rewrite drop_nil in Hk. congruence.
  - destruct (Re.match_at p (b :: l)) eqn:M.
    + split.
      * intros [= <- <-]. exists 0. rewrite Nat.add_0_r. repeat split; auto. lia.
      * intros (k & -> & -> & Hk & Hlt). destruct k; [by rewrite Nat.add_0_r|].
        specialize (Hlt 0 ltac:(lia)). cbn in Hlt. congruence.
    + rewrite IH. split.
      * intros (k & -> & -> & Hk & Hlt). exists (S k). repeat split; auto; try lia.
        intros [|j] Hj; [done | apply Hlt; lia].
      * intros (k & -> & -> & Hk & Hlt). destruct k; [cbn in Hk; congruence|].
        exists k. repeat split; auto; try lia. intros j Hj. apply (Hlt (S j)). lia.
Qed.

Lemma search_from_None p l i :
  Re.search_from p l i = None <-> forall k, Re.match_at p (drop k l) = false.
Proof.
  revert i; induction l as [|b l IH]; intros i; cbn.
  - destruct (Re.match_at p []) eqn:M.
    + split; [discriminate|]. intros H. specialize (H 0). cbn in H. congruence.
    + split; [|done]. intros _ k. by rewrite drop_nil.
  - destruct (Re.match_at p (b :: l)) eqn:M.
    + split; [discriminate|]. intros H. specialize (H 0). cbn in H. congruence.
    + rewrite IH. split.
      * intros H [|k]; [done | apply H].
      * intros H k. apply (H (S k)).
Qed.

(** [re.search] returns the span of the leftmost token. *)
Lemma search_Some p l s e :
  Re.search p l = Some (s, e) <-> first_token p l s /\ e = s + length p.
Proof.
  unfold Re.search, first_token, token_at. rewrite search_from_Some. split.
  - intros (k & -> & -> & Hk & Hlt). cbn. repeat split; auto.
    intros j Hj. rewrite (Hlt j Hj). discriminate.
  - intros [[Hs Hlt] ->]. exists s. repeat split; auto.
    intros j Hj. specialize (Hlt j Hj). by destruct (Re.match_at p (drop j l)).
Qed.

Lemma search_None p l : Re.search p l = None <-> ~ has_token p l.
Proof.
  unfold Re.search, has_token, token_at. rewrite search_from_None. split.
  - intros H (k & Hk). rewrite H in Hk. discriminate.
  - intros H k. destruct (Re.match_at p (drop k l)) eqn:E; [|done]. destruct H; eauto.
Qed.

Lemma search_span p l s e :
  0 < length p -> Re.search p l = Some (s, e) -> e = s + length p /\ e <= length l.
Proof.
  intros Hp [[Hs _] ->]%search_Some. split; [done|].
  apply match_at_length in Hs. rewrite length_drop in Hs. lia.
Qed.

Lemma search_has_token p l :
  has_token p l -> exists s, Re.search p l = Some (s, s + length p).
Proof.
  intros H. destruct (Re.search p l) as [[s e]|] eqn:E.
  - apply search_Some in E as E'. destruct E' as [_ ->]. eauto.
  - apply search_None in E. contradiction.
Qed.

Lemma search_has_token_inv p l s e : Re.search p l = Some (s, e) -> has_token p l.
Proof. intros [[H _] _]%search_Some. by exists s. Qed.

(** The search only depends on which windows match. *)
Lemma search_ext p l l' :
  (forall k, Re.match_at p (drop k l) = Re.match_at p (drop k l')) ->
  Re.search p l = Re.search p l'.
Proof.
  intros H. destruct (Re.search p l) as [[s e]|] eqn:E; symmetry.
  - apply search_Some in E as [[Hs Hlt] ->]. apply search_Some. unfold first_token, token_at in *.
    split; [split|reflexivity].
    + by rewrite <- H.
    + intros k Hk. rewrite <- H. by apply Hlt.
  - rewrite search_None in E. apply search_None. intros (k & Hk). apply E. exists k.
    unfold token_at in *. by rewrite H.
Qed.

Lemma first_token_unique p l s s' : first_token p l s -> first_token p l s' -> s = s'.
Proof.
  intros [H1 L1] [H2 L2]. destruct (Nat.lt_trichotomy s s') as [H|[H|H]]; [|done|].
  - destruct (L2 s H H1).
  - destruct (L1 s' H H2).
Qed.

(** ** Overwriting a span *)

Lemma length_overwrite l s v :
  s + length v <= length l -> length (overwrite l s v) = length l.
Proof.
  intros H. unfold overwrite. rewrite !length_app, length_take, length_drop. lia.
Qed.

Lemma overwrite_lookup_outside l s v i :
  s + length v <= length l -> i < s \/ s + length v <= i ->
  overwrite l s v !! i = l !! i.
Proof.
  intros Hl Hi. unfold overwrite. destruct Hi as [Hi|Hi].
  - rewrite lookup_app_l by (rewrite length_take; lia). by rewrite lookup_take_lt.
  - rewrite lookup_app_r by (rewrite length_take; lia).
    rewrite lookup_app_r by (rewrite length_take; lia).
    rewrite lookup_drop, length_take. f_equal. lia.
Qed.

Lemma overwrite_lookup_inside l s v i :
  s + length v <= length l -> s <= i < s + length v ->
  overwrite l s v !! i = v !! (i - s).
Proof.
  intros Hl Hi. unfold overwrite.
  rewrite lookup_app_r by (rewrite length_take; lia).
  rewrite length_take, lookup_app_l by lia. f_equal. lia.
Qed.

Lemma overwrite_window l s v :
  s + length v <= length l -> take (length v) (drop s (overwrite l s v)) = v.
Proof.
  intros H. unfold overwrite.
  rewrite drop_app_length' by (rewrite length_take; lia). by rewrite take_app_length.
Qed.

(** Written in the middle of a larger view, at the line's offset. *)
Lemma splice_line (pre l post v : bytes) s :
  s + length v <= length l ->
  take (length pre + s) (pre ++ l ++ post) ++ v
    ++ drop (length pre + s + length v) (pre ++ l ++ post)
  = pre ++ overwrite l s v ++ post.
Proof.
  intros H. unfold overwrite.
  rewrite take_app_add, drop_app_ge by lia.
  rewrite take_app_le, drop_app_le by lia.
  replace (length pre + s + length v - length pre) with (s + length v) by lia.
  by rewrite <- !app_assoc.
Qed.

(** A window away from the span sees the old bytes. *)
Lemma match_at_overwrite_away p l s v k :
  s + length v <= length l ->
  k + length p <= s \/ s + length v <= k ->
  Re.match_at p (drop k (overwrite l s v)) = Re.match_at p (drop k l).
Proof.
  intros Hl Hk. apply match_at_ext. intros i Hi. rewrite !lookup_drop.
  apply overwrite_lookup_outside; [done | lia].
Qed.

(** ** Clashing patterns *)

Lemma atom_clash_sound a b c :
  atom_clash a b = true -> Re.accepts b c = true -> Re.accepts a c = false.
Proof.
  destruct a as [x|], b as [y|]; cbn; intros H Hb.
  - apply byte_dec_bl in Hb as ->. apply negb_true_iff in H.
    destruct (Byte.eqb x c) eqn:E; [|done]. apply byte_dec_bl in E as ->. congruence.
  - apply negb_true_iff in H. destruct (Byte.eqb x c) eqn:E; [|done].
    apply byte_dec_bl in E as ->. congruence.
  - apply byte_dec_bl in Hb as ->. by apply negb_true_iff in H.
  - discriminate.
Qed.

Lemma clash_sound p q l :
  clash p q = true -> Re.match_at q l = true -> Re.match_at p l = false.
Proof.
  revert q l; induction p as [|a p IH]; intros [|b q] l; cbn; try discriminate.
  destruct l as [|c l]; [done|].
  intros [H|H]%orb_prop [Hb Hq]%andb_prop.
  - by rewrite (atom_clash_sound _ _ _ H Hb).
  - rewrite (IH _ _ H Hq). apply andb_false_r.
Qed.

(** No window of [p] overlaps a text of shape [q] placed at offset [s],
    except (for [from = 1]) the window at [s] itself. *)
Lemma no_overlap p q from l s k :
  no_start_inside p q from = true -> no_reach_into p q = true ->
  Re.match_at q (drop s l) = true ->
  s < k + length p -> k < s + length q -> (k < s \/ s + from <= k) ->
  Re.match_at p (drop k l) = false.
Proof.
  unfold no_start_inside, no_reach_into. rewrite !forallb_forall.
  intros Hin Hreach Hq H1 H2 H3.
  destruct (decide (s <= k)) as [Hle|Hlt].
  - assert (Hd : In (k - s) (seq from (length q - from))) by (apply in_seq; lia).
    apply Hin in Hd. apply (clash_sound _ _ _ Hd).
    apply (match_at_drop _ _ (k - s)) in Hq. rewrite drop_drop in Hq.
    by replace (s + (k - s)) with k in Hq by lia.
  - assert (Hd : In (s - k) (seq 1 (length p - 1))) by (apply in_seq; lia).
    apply Hreach in Hd. destruct (Re.match_at p (drop k l)) eqn:M; [|done].
    apply (match_at_drop _ _ (s - k)) in M. rewrite drop_drop in M.
    replace (k + (s - k)) with s in M by lia.
    by rewrite (clash_sound _ _ _ Hd Hq) in M.
Qed.

(** The tables for the two patterns and the two masks. *)
Lemma isolated_ssn_cc : isolated ssn_pattern cc_pattern = true.
Proof. vm_compute. reflexivity. Qed.
Lemma isolated_cc_ssn : isolated cc_pattern ssn_pattern = true.
Proof. vm_compute. reflexivity. Qed.
Lemma isolated_ssn_ccmask : isolated ssn_pattern (Re.lits CC_REPLACE_STR) = true.
Proof. vm_compute. reflexivity. Qed.
Lemma isolated_cc_ssnmask : isolated cc_pattern (Re.lits SSN_REPLACE_STR) = true.
Proof. vm_compute. reflexivity. Qed.
Lemma isolated_cc_ccmask : isolated cc_pattern (Re.lits CC_REPLACE_STR) = true.
Proof. vm_compute. reflexivity. Qed.
Lemma isolated_ssn_ssnmask : isolated ssn_pattern (Re.lits SSN_REPLACE_STR) = true.
Proof. vm_compute. reflexivity. Qed.
Lemma unbordered_cc : unbordered cc_pattern = true.
Proof. vm_compute. reflexivity. Qed.
Lemma unbordered_ssn : unbordered ssn_pattern = true.
Proof. vm_compute. reflexivity. Qed.

(** ** Lines *)

Lemma eol_cons b l : eol (b :: l) = if is_nl b then 1 else S (eol l).
Proof.
  unfold eol. cbn. destruct (is_nl b); [done|]. by destruct (memchr_nl l).
Qed.

Lemma eol_bounds l : l <> [] -> 0 < eol l <= length l.
Proof.
  induction l as [|b l IH]; [done|]. intros _. rewrite eol_cons. cbn.
  destruct (is_nl b); [lia|]. destruct l; [cbn; lia|]. specialize (IH ltac:(done)). lia.
Qed.

(** [lines] peels off what [readline] returns. *)
Lemma lines_unfold l :
  l <> [] -> lines l = take (eol l) l :: lines (drop (eol l) l).
Proof.
  induction l as [|b l IH]; [done|]. intros _. rewrite eol_cons. cbn.
  destruct (is_nl b); [reflexivity|].
  destruct l as [|c l]; [done|]. by rewrite IH.
Qed.

Lemma concat_lines l : concat (lines l) = l.
Proof.
  induction l as [|b l IH]; [done|]. cbn. destruct (is_nl b); cbn; [by rewrite IH|].
  destruct (lines l) as [|ln lns]; cbn in *; by rewrite <- IH.
Qed.

Lemma lines_nonempty l ln : In ln (lines l) -> ln <> [].
Proof.
  revert ln; induction l as [|b l IH]; cbn; [done|]. intros ln.
  destruct (is_nl b).
  - intros [<-|H]; [done | by apply IH].
  - destruct (lines l) as [|ln' lns]; cbn.
    + intros [<-|[]]; done.
    + intros [<-|H]; [done | apply IH; by right].
Qed.

Lemma lines_cons_inv rest l ls :
  lines rest = l :: ls ->
  l <> [] /\ l = take (eol rest) rest /\ rest = l ++ drop (eol rest) rest
  /\ lines (drop (eol rest) rest) = ls.
Proof.
  intros H. destruct rest as [|b rest]; [done|].
  rewrite lines_unfold in H by done. injection H as <- <-.
  split; [|split; [done|split; [by rewrite take_drop|done]]].
  pose proof (eol_bounds (b :: rest) ltac:(done)) as Hb.
  intros E%(f_equal length). rewrite length_take in E. cbn in *. lia.
Qed.

(** ** The mapped view *)

Lemma mm_readline_at pre rest :
  mm_readline {| mm_data := pre ++ rest; mm_pos := length pre |} = (take (eol rest) rest,
    {| mm_data := pre ++ rest; mm_pos := length pre + eol rest |}) .
Proof.
  unfold mm_readline; cbn. by rewrite drop_app_length.
Qed.

Lemma mm_setslice_line m pre l post s v :
  mm_data m = pre ++ l ++ post -> s + length v <= length l ->
  mm_setslice m (length pre + s) (length pre + (s + length v)) v
  = inr {| mm_data := pre ++ overwrite l s v ++ post; mm_pos := mm_pos m |}.
Proof.
  intros Hd Hs. unfold mm_setslice. rewrite Hd, !length_app.
  rewrite !Nat.min_l by lia.
  replace (length pre + (s + length v) - (length pre + s)) with (length v) by lia.
  rewrite Nat.eqb_refl. by rewrite splice_line.
Qed.

Lemma mm_getslice_line m pre l post n :
  mm_data m = pre ++ l ++ post -> n = length l ->
  mm_getslice m (length pre) (length pre + n) = l.
Proof.
  intros Hd ->. unfold mm_getslice. rewrite Hd.
  rewrite take_app_add, take_app_length, drop_app_length. done.
Qed.

(** ** The loop, line by line *)

Section Scan.

Variable cc_mask ssn_mask : bytes.
Hypothesis cc_mask_len : length cc_mask = length cc_pattern.
Hypothesis ssn_mask_len : length ssn_mask = length ssn_pattern.

Lemma after_cc_length l : length (after_cc cc_mask l) = length l.
Proof.
  unfold after_cc. destruct (Re.search cc_pattern l) as [[s e]|] eqn:E; [|done].
  apply search_span in E as [-> He]; [|cbn; lia]. apply length_overwrite. lia.
Qed.

Lemma after_ssn_length l : length (after_ssn ssn_mask l) = length l.
Proof.
  unfold after_ssn. destruct (Re.search ssn_pattern l) as [[s e]|] eqn:E; [|done].
  apply search_span in E as [-> He]; [|cbn; lia]. apply length_overwrite. lia.
Qed.

Lemma redact_line_with_length l : length (redact_line_with cc_mask ssn_mask l) = length l.
Proof. unfold redact_line_with. by rewrite after_ssn_length, after_cc_length. Qed.

Lemma cc_step_line pre l post st :
  mm_data (mm st) = pre ++ l ++ post ->
  current_line_offset st = length pre ->
  next_line_offset st = length pre + length l ->
  cc_step cc_mask l st
  = inr (after_cc cc_mask l, cc_hit l,
         {| mm := {| mm_data := pre ++ after_cc cc_mask l ++ post;
                     mm_pos := mm_pos (mm st) |};
            lines_redacted := lines_redacted st;
            cc_redactions := if cc_hit l then cc_redactions st + 1 else cc_redactions st;
            ssn_redactions := ssn_redactions st;
            line_count := line_count st;
            current_line_offset := current_line_offset st;
            next_line_offset := next_line_offset st;
            trace := trace st ++
              match Re.search cc_pattern l with
              | Some (s, e) => [DebugCC (line_count st) (length pre + s) (length pre + e)]
              | None => []
              end |}).
Proof.
  intros Hd Hc Hn. unfold cc_step, after_cc, cc_hit. rewrite Hc, Hn.
  destruct (Re.search cc_pattern l) as [[s e]|] eqn:Ecc.
  - pose proof Ecc as [-> He]%search_span; [|cbn; lia].
    rewrite <- cc_mask_len in *.
    rewrite (mm_setslice_line _ pre l post s cc_mask) by (done || lia).
    rewrite (mm_getslice_line _ pre (overwrite l s cc_mask) post)
      by (done || (rewrite length_overwrite by lia; done)).
    reflexivity.
  - destruct st as [[d p] ? ? ? ? ? ? ?]; cbn in *. subst. by rewrite app_nil_r.
Qed.

Lemma ssn_step_line pre l post st :
  mm_data (mm st) = pre ++ l ++ post ->
  current_line_offset st = length pre ->
  ssn_step ssn_mask l st
  = inr (match Re.search ssn_pattern l with Some _ => true | None => false end,
         {| mm := {| mm_data := pre ++ after_ssn ssn_mask l ++ post;
                     mm_pos := mm_pos (mm st) |};
            lines_redacted := lines_redacted st;
            cc_redactions := cc_redactions st;
            ssn_redactions :=
              match Re.search ssn_pattern l with
              | Some _ => ssn_redactions st + 1
              | None => ssn_redactions st
              end;
            line_count := line_count st;
            current_line_offset := current_line_offset st;
            next_line_offset := next_line_offset st;
            trace := trace st ++
              match Re.search ssn_pattern l with
              | Some (s, e) => [DebugSSN (line_count st) (length pre + s) (length pre + e)]
              | None => []
              end |}).
Proof.
  intros Hd Hc. unfold ssn_step, after_ssn. rewrite Hc.
  destruct (Re.search ssn_pattern l) as [[s e]|] eqn:Essn.
  - pose proof Essn as [-> He]%search_span; [|cbn; lia].
    rewrite <- ssn_mask_len in *.
    rewrite (mm_setslice_line _ pre l post s ssn_mask) by (done || lia).
    reflexivity.
  - destruct st as [[d p] ? ? ? ? ? ? ?]; cbn in *. subst. by rewrite app_nil_r.
Qed.

(** One turn of the loop is [after_line]. *)
Lemma loop_body_after_line pre l post st :
  mm_data (mm st) = pre ++ l ++ post ->
  current_line_offset st = length pre ->
  loop_body cc_mask ssn_mask l
    {| mm_data := mm_data (mm st); mm_pos := length pre + length l |} st
  = Finished (after_line cc_mask ssn_mask l st).
Proof.
  intros Hd Hc. unfold loop_body.
  rewrite (cc_step_line pre l post) by done.
  rewrite (ssn_step_line pre (after_cc cc_mask l) post) by done.
  unfold end_of_line, after_line, redact_line_with, line_events, ssn_hit, mm_flush.
  cbn [mm current_line_offset next_line_offset mm_tell mm_pos mm_data
       lines_redacted cc_redactions ssn_redactions line_count trace].
  rewrite Hc, Hd.
  rewrite take_app_length, drop_app_add, drop_app_length.
  rewrite !length_app, after_ssn_length, after_cc_length.
  f_equal. f_equal.
  - by destruct (Re.search ssn_pattern (after_cc cc_mask l)).
  - destruct (cc_hit l), (Re.search ssn_pattern (after_cc cc_mask l)) as [[]|]; cbn;
      rewrite <- ?app_assoc, ?app_nil_r; reflexivity.
Qed.

(** The whole scan is the fold of [after_line] over the lines still to read. *)
Lemma redact_loop_lines ls : forall rest pre st fuel,
  lines rest = ls ->
  mm_data (mm st) = pre ++ rest ->
  mm_pos (mm st) = length pre ->
  current_line_offset st = length pre ->
  length ls < fuel ->
  redact_loop cc_mask ssn_mask fuel st = Finished (after_lines cc_mask ssn_mask ls st).
Proof.
  induction ls as [|l ls IH]; intros rest pre st fuel Hl Hd Hp Hc Hf.
  - destruct fuel as [|fuel]; [cbn in Hf; lia|].
    destruct rest as [|b rest]; [|rewrite lines_unfold in Hl; done].
    cbn [redact_loop]. destruct (mm st) as [d p] eqn:Em. cbn in Hd, Hp. subst d p.
    rewrite mm_readline_at. reflexivity.
  - destruct fuel as [|fuel]; [cbn in Hf; lia|].
    apply lines_cons_inv in Hl as (Hne & Htake & Hrest & Hls).
    cbn [redact_loop]. destruct (mm st) as [d p] eqn:Em. cbn in Hd, Hp. subst d p.
    rewrite mm_readline_at, <- Htake.
    destruct l as [|b l'] eqn:El; [done|]. rewrite <- El in *. clear El b l' Hne.
    assert (Hd : mm_data (mm st) = pre ++ l ++ drop (eol rest) rest)
      by (rewrite Em; cbn; by rewrite <- Hrest).
    assert (Hlen : eol rest = length l).
    { rewrite Htake, length_take. pose proof (eol_bounds rest).
      destruct rest; [by subst l|]. specialize (H ltac:(done)). lia. }
    rewrite Hlen.
    replace (pre ++ rest) with (mm_data (mm st)) by (rewrite Em; done).
    rewrite (loop_body_after_line pre l (drop (eol rest) rest)) by done.
    cbn [after_lines fold_left].
    apply (IH (drop (eol rest) rest) (pre ++ redact_line_with cc_mask ssn_mask l)).
    + done.
    + cbn. rewrite Hc, Hd, take_app_length, drop_app_add, drop_app_length.
      by rewrite <- app_assoc.
    + cbn. rewrite Hc, length_app, redact_line_with_length. done.
    + cbn. rewrite Hc, length_app, redact_line_with_length. done.
    + cbn in Hf. lia.
Qed.

Lemma after_lines_spec ls : forall pre post st,
  mm_data (mm st) = pre ++ concat ls ++ post ->
  current_line_offset st = length pre ->
  let st' := after_lines cc_mask ssn_mask ls st in
  mm_data (mm st') = pre ++ concat (map (redact_line_with cc_mask ssn_mask) ls) ++ post
  /\ lines_redacted st'
     = lines_redacted st + count_lines (fun l => cc_hit l || ssn_hit cc_mask l) ls
  /\ cc_redactions st' = cc_redactions st + count_lines cc_hit ls
  /\ ssn_redactions st' = ssn_redactions st + count_lines (ssn_hit cc_mask) ls
  /\ line_count st' = line_count st + length ls
  /\ trace st'
     = trace st ++ events_of cc_mask (length (mm_data (mm st))) (line_count st) (length pre) ls.
Proof.
  unfold count_lines.
  induction ls as [|l ls IH]; intros pre post st Hd Hc; cbn [after_lines fold_left].
  - cbn. rewrite Hd, !Nat.add_0_r, app_nil_r. done.
  - assert (Hd' : mm_data (mm (after_line cc_mask ssn_mask l st))
                  = (pre ++ redact_line_with cc_mask ssn_mask l) ++ concat ls ++ post).
    { cbn. rewrite Hc, Hd. cbn [concat]. rewrite <- !app_assoc.
      rewrite take_app_length, drop_app_add, drop_app_length. done. }
    assert (Hc' : current_line_offset (after_line cc_mask ssn_mask l st)
                  = length (pre ++ redact_line_with cc_mask ssn_mask l)).
    { cbn. rewrite Hc, length_app, redact_line_with_length. done. }
    destruct (IH _ _ _ Hd' Hc') as (E1 & E2 & E3 & E4 & E5 & E6).
    fold (after_lines cc_mask ssn_mask ls (after_line cc_mask ssn_mask l st)).
    rewrite E1, E2, E3, E4, E5, E6. clear E1 E2 E3 E4 E5 E6 IH.
    rewrite Hd'. cbn [map concat List.filter events_of length].
    cbn [after_line mm mm_data lines_redacted cc_redactions ssn_redactions line_count trace].
    rewrite Hc, Hd.
    rewrite !length_app, redact_line_with_length, <- !app_assoc.
    repeat split.
    + destruct (cc_hit l || ssn_hit cc_mask l); cbn; lia.
    + destruct (cc_hit l); cbn; lia.
    + destruct (ssn_hit cc_mask l); cbn; lia.
    + lia.
    + cbn [concat]. rewrite length_app, Nat.add_1_r. do 3 f_equal. lia.
Qed.

End Scan.

Lemma length_lines l : length (lines l) <= length l.
Proof.
  induction l as [|b l IH]; cbn; [lia|].
  destruct (is_nl b); cbn; [lia|]. destruct (lines l); cbn in *; lia.
Qed.

(** [redact_data] in closed form, for any masks of the spans' lengths: the
    scan ends, every line is redacted on its own, and the counters count
    lines. *)
Lemma redact_data_with_spec cc_mask ssn_mask contents :
  length cc_mask = length cc_pattern ->
  length ssn_mask = length ssn_pattern ->
  contents <> [] ->
  redact_data_with cc_mask ssn_mask contents
  = Some {| file_after := concat (map (redact_line_with cc_mask ssn_mask) (lines contents));
            events := events_of cc_mask (length contents) 1 0 (lines contents);
            returned := inr
              {| total_lines_redacted :=
                   count_lines (fun l => cc_hit l || ssn_hit cc_mask l) (lines contents);
                 total_lines_processed := 1 + length (lines contents);
                 total_cc_lines_redacted := count_lines cc_hit (lines contents);
                 total_ssn_lines_redacted :=
                   count_lines (ssn_hit cc_mask) (lines contents) |} |}.
Proof.
  intros Hcc Hssn Hne. unfold redact_data_with.
  destruct contents as [|b contents']; [done|]. set (contents := b :: contents') in *.
  rewrite (redact_loop_lines cc_mask ssn_mask Hcc Hssn (lines contents) contents [])
    by (done || (pose proof (length_lines contents); lia)).
  destruct (after_lines_spec cc_mask ssn_mask Hcc Hssn (lines contents) [] []
              (initial contents)) as (E1 & E2 & E3 & E4 & E5 & E6).
  { cbn [initial mm mm_data]. by rewrite concat_lines, app_nil_r. }
  { done. }
  unfold audit_of. rewrite E1, E2, E3, E4, E5, E6. cbn. by rewrite app_nil_r.
Qed.

Lemma redact_data_spec contents :
  contents <> [] ->
  redact_data contents
  = Some {| file_after := concat (map redact_line (lines contents));
            events := events_of CC_REPLACE_STR (length contents) 1 0 (lines contents);
            returned := inr
              {| total_lines_redacted :=
                   count_lines (fun l => cc_hit l || ssn_hit CC_REPLACE_STR l) (lines contents);
                 total_lines_processed := 1 + length (lines contents);
                 total_cc_lines_redacted := count_lines cc_hit (lines contents);
                 total_ssn_lines_redacted :=
                   count_lines (ssn_hit CC_REPLACE_STR) (lines contents) |} |}.
Proof. intros H. by apply redact_data_with_spec. Qed.

Lemma redact_data_empty : 
  redact_data [] = Some {| file_after := []; events := []; returned := inl ValueError |}.
Proof. reflexivity. Qed.

(** ** Masks and tokens do not interfere *)

(** A text of shape [q] at offset [s] overwritten by a mask [v]: the
    windows of a pattern [p] that can overlap neither shape are unchanged. *)
Lemma overwrite_windows_other p q v l s k :
  isolated p q = true -> isolated p (Re.lits v) = true ->
  length v = length q -> 0 < length q ->
  Re.match_at q (drop s l) = true ->
  Re.match_at p (drop k (overwrite l s v)) = Re.match_at p (drop k l).
Proof.
  intros [I1 I2]%andb_prop [J1 J2]%andb_prop Hlen Hpos Hq.
  assert (Hl : s + length v <= length l).
  { apply match_at_length in Hq. rewrite length_drop in Hq. lia. }
  destruct (decide (s < k + length p /\ k < s + length q)) as [[H1 H2]|Hno].
  - rewrite (no_overlap p q 0 l s k) by (done || lia).
    apply (no_overlap p (Re.lits v) 0 _ s k); try done.
    + apply match_at_lits. by apply overwrite_window.
    + unfold Re.lits. rewrite length_map. lia.
    + lia.
  - apply match_at_overwrite_away; [done | lia].
Qed.

(** The pattern's own token overwritten by its mask: the window at [s] no
    longer matches, every other window is unchanged. *)
Lemma overwrite_windows_own p v l s k :
  unbordered p = true -> isolated p (Re.lits v) = true ->
  length v = length p -> 0 < length p ->
  Re.match_at p (drop s l) = true ->
  Re.match_at p (drop k (overwrite l s v))
  = if decide (k = s) then false else Re.match_at p (drop k l).
Proof.
  intros [I1 I2]%andb_prop [J1 J2]%andb_prop Hlen Hpos Hq.
  assert (Hl : s + length v <= length l).
  { apply match_at_length in Hq. rewrite length_drop in Hq. lia. }
  assert (Hmask : Re.match_at (Re.lits v) (drop s (overwrite l s v)) = true)
    by (apply match_at_lits; by apply overwrite_window).
  assert (Hlv : length (Re.lits v) = length p) by (unfold Re.lits; by rewrite length_map).
  destruct (decide (k = s)) as [->|Hne].
  - apply (no_overlap p (Re.lits v) 0 _ s s); try done; lia.
  - destruct (decide (s < k + length p /\ k < s + length p)) as [[H1 H2]|Hno].
    + rewrite (no_overlap p p 1 l s k) by (done || lia).
      apply (no_overlap p (Re.lits v) 0 _ s k); try done; lia.
    + apply match_at_overwrite_away; [done | lia].
Qed.

Lemma search_cc_token l s e :
  Re.search cc_pattern l = Some (s, e) ->
  Re.match_at cc_pattern (drop s l) = true /\ e = s + 24 /\ s + 24 <= length l.
Proof.
  intros H. pose proof H as [He Hl]%search_span; [|cbn; lia].
  apply search_Some in H as [[Hs _] _]. cbn in He. split; [done | split; [done|lia]].
Qed.

Lemma search_ssn_token l s e :
  Re.search ssn_pattern l = Some (s, e) ->
  Re.match_at ssn_pattern (drop s l) = true /\ e = s + 17 /\ s + 17 <= length l.
Proof.
  intros H. pose proof H as [He Hl]%search_span; [|cbn; lia].
  apply search_Some in H as [[Hs _] _]. cbn in He. split; [done | split; [done|lia]].
Qed.

(** The credit-card overwrite leaves every SSN window as it was: the re-read
    line and the line first read show the same SSN tokens. *)
Lemma ssn_windows_after_cc l k :
  Re.match_at ssn_pattern (drop k (after_cc CC_REPLACE_STR l))
  = Re.match_at ssn_pattern (drop k l).
Proof.
  unfold after_cc. destruct (Re.search cc_pattern l) as [[s e]|] eqn:E; [|done].
  apply search_cc_token in E as (Hs & _ & _).
  apply (overwrite_windows_other _ cc_pattern);
    auto using isolated_ssn_cc, isolated_ssn_ccmask; cbn; lia.
Qed.

Lemma search_ssn_after_cc l :
  Re.search ssn_pattern (after_cc CC_REPLACE_STR l) = Re.search ssn_pattern l.
Proof. apply search_ext. intros k. apply ssn_windows_after_cc. Qed.

Lemma cc_hit_iff l : cc_hit l = true <-> has_token cc_pattern l.
Proof.
  unfold cc_hit. destruct (Re.search cc_pattern l) as [[s e]|] eqn:E.
  - split; [|done]. intros _. apply search_Some in E as [[Hs _] _]. by exists s.
  - split; [done|]. apply search_None in E. contradiction.
Qed.

Lemma ssn_hit_iff l : ssn_hit CC_REPLACE_STR l = true <-> has_token ssn_pattern l.
Proof.
  unfold ssn_hit. rewrite search_ssn_after_cc.
  destruct (Re.search ssn_pattern l) as [[s e]|] eqn:E.
  - split; [|done]. intros _. apply search_Some in E as [[Hs _] _]. by exists s.
  - split; [done|]. apply search_None in E. contradiction.
Qed.

(** The redacted line, by the tokens of the line as first read. *)
Lemma redact_line_cases l :
  redact_line l =
  match Re.search cc_pattern l, Re.search ssn_pattern l with
  | Some (c, _), Some (s, _) => overwrite (overwrite l c CC_REPLACE_STR) s SSN_REPLACE_STR
  | Some (c, _), None => overwrite l c CC_REPLACE_STR
  | None, Some (s, _) => overwrite l s SSN_REPLACE_STR
  | None, None => l
  end.
Proof.
  unfold redact_line, redact_line_with, after_ssn. rewrite search_ssn_after_cc.
  unfold after_cc. destruct (Re.search cc_pattern l) as [[c ?]|];
    destruct (Re.search ssn_pattern l) as [[s ?]|]; reflexivity.
Qed.

Lemma redact_line_length l : length (redact_line l) = length l.
Proof. by apply redact_line_with_length. Qed.

(** ** Line feeds stay where they are *)

Lemma eol_ext a b : map is_nl a = map is_nl b -> eol a = eol b.
Proof.
  revert b; induction a as [|x a IH]; intros [|y b]; try discriminate; [done|].
  cbn [map]. intros [= Hxy Hab]. rewrite !eol_cons, Hxy, (IH b Hab). done.
Qed.

Lemma is_nl_true b : is_nl b = true -> b = newline.
Proof. apply byte_dec_bl. Qed.

Lemma overwrite_is_nl q v l s :
  rejects_nl q = true -> nl_free v = true ->
  length v = length q -> 0 < length q ->
  Re.match_at q (drop s l) = true ->
  map is_nl (overwrite l s v) = map is_nl l.
Proof.
  unfold rejects_nl, nl_free. rewrite !forallb_forall. intros Hq Hv Hlen Hpos Hm.
  assert (Hl : s + length v <= length l).
  { apply match_at_length in Hm. rewrite length_drop in Hm. lia. }
  apply list_eq. intros i. rewrite !list_lookup_fmap.
  destruct (decide (s <= i < s + length v)) as [Hi|Hi].
  - rewrite overwrite_lookup_inside by done.
    destruct (lookup_lt_is_Some_2 v (i - s)) as [x Hx]; [lia|].
    destruct (lookup_lt_is_Some_2 q (i - s)) as [a Ha]; [lia|].
    pose proof (proj1 (match_at_lookup _ _) Hm _ _ Ha) as (y & Hy & Hacc).
    rewrite lookup_drop in Hy. replace (s + (i - s)) with i in Hy by lia.
    rewrite Hx, Hy. cbn. f_equal.
    assert (is_nl x = false).
    { apply negb_true_iff, Hv. apply list_elem_of_In. by eapply list_elem_of_lookup_2. }
    assert (is_nl y = false).
    { destruct (is_nl y) eqn:E; [|done]. apply is_nl_true in E as ->.
      assert (In a q) by (apply list_elem_of_In; by eapply list_elem_of_lookup_2).
      apply Hq in H0. rewrite Hacc in H0. discriminate. }
    congruence.
  - rewrite overwrite_lookup_outside by (done || lia). done.
Qed.

Lemma after_cc_is_nl l : map is_nl (after_cc CC_REPLACE_STR l) = map is_nl l.
Proof.
  unfold after_cc. destruct (Re.search cc_pattern l) as [[c ce]|] eqn:Ec; [|done].
  apply search_cc_token in Ec as (Hc & _ & _).
  by apply (overwrite_is_nl cc_pattern); [| | | cbn; lia |].
Qed.

Lemma after_ssn_is_nl l : map is_nl (after_ssn SSN_REPLACE_STR l) = map is_nl l.
Proof.
  unfold after_ssn. destruct (Re.search ssn_pattern l) as [[c ce]|] eqn:Ec; [|done].
  apply search_ssn_token in Ec as (Hc & _ & _).
  by apply (overwrite_is_nl ssn_pattern); [| | | cbn; lia |].
Qed.

Lemma redact_line_is_nl l : map is_nl (redact_line l) = map is_nl l.
Proof.
  unfold redact_line, redact_line_with. by rewrite after_ssn_is_nl, after_cc_is_nl.
Qed.

(** Rewriting every line without moving a line feed keeps the lines. *)
Lemma concat_map_is_nl (f : bytes -> bytes) ls :
  (forall l, map is_nl (f l) = map is_nl l) ->
  map is_nl (concat (map f ls)) = map is_nl (concat ls).
Proof.
  intros Hf. induction ls as [|l ls IH]; [done|]. cbn.
  by rewrite !map_app, Hf, IH.
Qed.

Lemma lines_concat_map (f : bytes -> bytes) ls : forall contents,
  (forall l, map is_nl (f l) = map is_nl l) ->
  lines contents = ls ->
  lines (concat (map f ls)) = map f ls.
Proof.
  induction ls as [|l ls IH]; intros contents Hf Hl; [done|].
  apply lines_cons_inv in Hl as (Hne & Htake & Hrest & Hls).
  assert (Hlen : length (f l) = length l).
  { rewrite <- (length_map is_nl (f l)), Hf, length_map. done. }
  assert (Heol : eol (concat (map f (l :: ls))) = length (f l)).
  { rewrite (eol_ext _ contents).
    - rewrite Hlen, Htake, length_take.
      destruct contents as [|b contents]; [by subst l|].
      pose proof (eol_bounds (b :: contents) ltac:(done)). lia.
    - rewrite concat_map_is_nl by done. cbn [concat].
      rewrite <- (concat_lines (drop (eol contents) contents)) in Hrest.
      rewrite Hls in Hrest. by rewrite <- Hrest. }
  rewrite lines_unfold.
  - rewrite Heol. cbn [map concat]. rewrite take_app_length, drop_app_length.
    f_equal. by apply (IH (drop (eol contents) contents)).
  - cbn [map concat]. intros E%(f_equal length). rewrite length_app, Hlen in E.
    destruct l; [done | cbn in E; lia].
Qed.

Lemma lines_of_redacted contents :
  lines (concat (map redact_line (lines contents))) = map redact_line (lines contents).
Proof. apply (lines_concat_map _ _ contents); [apply redact_line_is_nl | done]. Qed.

(** ** What a pass returns *)

Lemma redact_data_total contents : exists p, redact_data contents = Some p.
Proof.
  destruct contents as [|b c]; [rewrite redact_data_empty | rewrite redact_data_spec by done];
    eauto.
Qed.

Lemma redact_data_returns contents p a :
  redact_data contents = Some p -> returned p = inr a -> contents <> [].
Proof.
  intros H Ha ->. rewrite redact_data_empty in H. injection H as <-. discriminate.
Qed.

Lemma redact_data_file contents p :
  redact_data contents = Some p ->
  file_after p = concat (map redact_line (lines contents)).
Proof.
  destruct contents as [|b c].
  - rewrite redact_data_empty. by intros [= <-].
  - rewrite redact_data_spec by done. by intros [= <-].
Qed.

Lemma redact_data_lines contents p :
  redact_data contents = Some p ->
  lines (file_after p) = map redact_line (lines contents).
Proof. intros ->%redact_data_file. apply lines_of_redacted. Qed.

Lemma length_concat_map (f : bytes -> bytes) ls :
  (forall l, length (f l) = length l) ->
  length (concat (map f ls)) = length (concat ls).
Proof.
  intros Hf. induction ls as [|l ls IH]; [done|]. cbn. by rewrite !length_app, Hf, IH.
Qed.


(** ** Offsets of lines in the file *)

Lemma drop_line_offset (ls : list bytes) i l :
  ls !! i = Some l ->
  drop (length (concat (take i ls))) (concat ls) = l ++ concat (drop (S i) ls).
Proof.
  intros H. rewrite <- (take_drop_middle ls i l H) at 2.
  rewrite concat_app, drop_app_length. done.
Qed.

Lemma line_offset_redacted contents i :
  length (concat (take i (map redact_line (lines contents)))) = line_offset contents i.
Proof.
  unfold line_offset. rewrite firstn_map.
  apply length_concat_map, redact_line_length.
Qed.

(** The window of a redacted line, seen from the file. *)
Lemma file_window contents p i line n k :
  redact_data contents = Some p ->
  lines contents !! i = Some line ->
  k + n <= length line ->
  take n (drop (line_offset contents i + k) (file_after p))
  = take n (drop k (redact_line line)).
Proof.
  intros Hp Hi Hk. rewrite (redact_data_file _ _ Hp).
  rewrite <- line_offset_redacted, <- drop_drop.
  rewrite (drop_line_offset _ i (redact_line line))
    by (rewrite list_lookup_fmap, Hi; done).
  rewrite drop_app_le by (rewrite redact_line_length; lia).
  rewrite take_app_le by (rewrite length_drop, redact_line_length; lia). done.
Qed.

(** A window of the line that the overwritten span does not meet. *)
Lemma overwrite_window_away l s v c n :
  s + length v <= length l -> c + n <= s \/ s + length v <= c ->
  take n (drop c (overwrite l s v)) = take n (drop c l).
Proof.
  intros Hl Hc. apply list_eq. intros j. rewrite !lookup_take, !lookup_drop.
  destruct (decide (j < n)); [|done]. apply overwrite_lookup_outside; [done | lia].
Qed.

(** Two tokens of different classes lie apart. *)
Lemma cc_ssn_apart l c s :
  token_at cc_pattern l c -> token_at ssn_pattern l s -> c + 24 <= s \/ s + 17 <= c.
Proof.
  unfold token_at. intros Hc Hs.
  destruct (decide (c < s + 17 /\ s < c + 24)) as [[H1 H2]|]; [|lia].
  pose proof isolated_ssn_cc as [I1 I2]%andb_prop.
  rewrite (no_overlap ssn_pattern cc_pattern 0 l c s) in Hs; try done; cbn; lia.
Qed.

(** ** Counting lines *)

Lemma count_lines_or (f g : bytes -> bool) ls :
  count_lines f ls + count_lines g ls
  = count_lines (fun l => f l || g l) ls + count_lines (fun l => f l && g l) ls.
Proof.
  unfold count_lines. induction ls as [|l ls IH]; [done|]. cbn.
  destruct (f l), (g l); cbn; lia.
Qed.

Lemma count_lines_zero (f : bytes -> bool) ls :
  count_lines f ls = 0 <-> forall l, In l ls -> f l = false.
Proof.
  unfold count_lines. induction ls as [|l ls IH]; cbn.
  - split; [intros _ ? [] | done].
  - destruct (f l) eqn:E; cbn.
    + split; [discriminate|]. intros H. specialize (H l (or_introl eq_refl)). congruence.
    + rewrite IH. split; [intros H x [<-|Hx]; auto | intros H x Hx; apply H; by right].
Qed.

Lemma count_lines_le (f : bytes -> bool) ls : count_lines f ls <= length ls.
Proof. unfold count_lines. apply filter_length_le. Qed.

(** ** The redaction of one line *)

Lemma redacted_line_lookup contents p i line :
  redact_data contents = Some p ->
  lines contents !! i = Some line ->
  lines (file_after p) !! i = Some (redact_line line).
Proof.
  intros Hp Hi. rewrite (redact_data_lines _ _ Hp), list_lookup_fmap, Hi. done.
Qed.



(** C2. On a line that holds a credit-card token and no SSN token, the
    mask stands where the leftmost token started, in the line and in the
    file, and the line keeps its length. *)
Theorem credit_card_only_masked contents p i line :
  redact_data contents = Some p ->
  lines contents !! i = Some line ->
  has_token cc_pattern line -> ~ has_token ssn_pattern line ->
  exists c line',
    first_token cc_pattern line c
    /\ lines (file_after p) !! i = Some line'
    /\ line' = overwrite line c CC_REPLACE_STR
    /\ take (length CC_REPLACE_STR) (drop c line') = CC_REPLACE_STR
    /\ take (length CC_REPLACE_STR) (drop (line_offset contents i + c) (file_after p))
       = CC_REPLACE_STR
    /\ length line' = length line.
Proof.
  intros Hp Hi [c Ec]%search_has_token Es%search_None.
  pose proof (redacted_line_lookup _ _ _ _ Hp Hi) as Hline.
  pose proof (redact_line_cases line) as Hcases. rewrite Ec, Es in Hcases.
  pose proof Ec as (Hc & _ & Hcl)%search_cc_token.
  apply search_Some in Ec as [Fc _].
  assert (Hcc : take (length CC_REPLACE_STR) (drop c (redact_line line)) = CC_REPLACE_STR).
  { rewrite Hcases. apply overwrite_window. cbn; lia. }
  exists c, (redact_line line). split_and!; try done.
  - rewrite (file_window _ _ _ line) by (done || cbn; lia). done.
  - apply redact_line_length.
Qed.

Lemma credit_card_only_masked_witness :
  exists p c line',
    redact_data login_file = Some p
    /\ first_token cc_pattern login_line c
    /\ lines (file_after p) !! 0 = Some line'
    /\ take (length CC_REPLACE_STR) (drop c line') = CC_REPLACE_STR
    /\ length line' = length login_line.
Proof.
  eexists.
  destruct (credit_card_only_masked login_file _ 0 login_line
              ltac:(vm_compute; reflexivity) ltac:(reflexivity)
              ltac:(exists 8; vm_compute; reflexivity)
              ltac:(apply search_None; vm_compute; reflexivity))
    as (c & line' & Fc & Hl & _ & Hc & _ & Hlen).
  exists c, line'. split; [reflexivity|]. split_and!; assumption.
Defined.





(** ** The counters *)

Lemma redact_data_counters contents p a :
  redact_data contents = Some p -> returned p = inr a ->
  total_lines_redacted a
    = count_lines (fun l => cc_hit l || ssn_hit CC_REPLACE_STR l) (lines contents)
  /\ total_lines_processed a = 1 + length (lines contents)
  /\ total_cc_lines_redacted a = count_lines cc_hit (lines contents)
  /\ total_ssn_lines_redacted a = count_lines (ssn_hit CC_REPLACE_STR) (lines contents).
Proof.
  intros Hp Ha. pose proof (redact_data_returns _ _ _ Hp Ha) as Hne.
  rewrite redact_data_spec in Hp by done. injection Hp as <-. cbn in Ha.
  injection Ha as <-. done.
Qed.

(** C5. The redacted-lines counter is at most the processed-lines counter
    and at most the sum of the two per-class counters, and equals that sum
    exactly when no line holds tokens of both classes. *)
Theorem counters_ordered contents p a :
  redact_data contents = Some p -> returned p = inr a ->
  total_lines_redacted a <= total_lines_processed a
  /\ total_lines_redacted a <= total_cc_lines_redacted a + total_ssn_lines_redacted a
  /\ (total_lines_redacted a = total_cc_lines_redacted a + total_ssn_lines_redacted a
      <-> forall line, In line (lines contents) ->
            ~ (has_token cc_pattern line /\ has_token ssn_pattern line)).
Proof.
  intros Hp Ha. destruct (redact_data_counters _ _ _ Hp Ha) as (-> & -> & -> & ->).
  pose proof (count_lines_or cc_hit (ssn_hit CC_REPLACE_STR) (lines contents)) as Hsum.
  pose proof (count_lines_le (fun l => cc_hit l || ssn_hit CC_REPLACE_STR l) (lines contents)).
  split; [lia|]. split; [lia|].
  pose proof (count_lines_zero (fun l => cc_hit l && ssn_hit CC_REPLACE_STR l)
                (lines contents)) as Hz.
  split.
  - intros E line Hin [Hc%cc_hit_iff Hs%ssn_hit_iff].
    assert (Hb : count_lines (fun l => cc_hit l && ssn_hit CC_REPLACE_STR l) (lines contents) = 0)
      by lia.
    pose proof (proj1 Hz Hb line Hin) as Hb'.
    change (cc_hit line && ssn_hit CC_REPLACE_STR line = false) in Hb'.
    rewrite Hc, Hs in Hb'. discriminate.
  - intros Hno.
    assert (Hb : count_lines (fun l => cc_hit l && ssn_hit CC_REPLACE_STR l) (lines contents) = 0).
    { apply Hz. intros l Hin. destruct (cc_hit l) eqn:Ec, (ssn_hit CC_REPLACE_STR l) eqn:Es;
        try done. destruct (Hno l Hin). split; [by apply cc_hit_iff | by apply ssn_hit_iff]. }
    lia.
Qed.

Lemma counters_ordered_witness :
  exists p a, redact_data both_line = Some p /\ returned p = inr a
    /\ total_lines_redacted a <= total_lines_processed a
    /\ total_lines_redacted a <= total_cc_lines_redacted a + total_ssn_lines_redacted a.
Proof.
  eexists. eexists. split; [vm_compute; reflexivity|]. split; [reflexivity|].
  destruct (counters_ordered both_line _ _ ltac:(vm_compute; reflexivity) ltac:(reflexivity))
    as (H1 & H2 & _).
  split; [exact H1 | exact H2].
Defined.

(** C6, as the code has it. The processed-lines counter starts at 1 and
    is incremented once per line, so the returned value is the number of
    lines plus one. *)
Theorem lines_processed_is_lines_plus_one contents p a :
  redact_data contents = Some p -> returned p = inr a ->
  total_lines_processed a = length (lines contents) + 1.
Proof.
  intros Hp Ha. destruct (redact_data_counters _ _ _ Hp Ha) as (_ & -> & _). lia.
Qed.

Lemma lines_processed_is_lines_plus_one_witness :
  exists p a, redact_data login_file = Some p /\ returned p = inr a
    /\ length (lines login_file) = 2 /\ total_lines_processed a = 3.
Proof.
  eexists. eexists. split; [vm_compute; reflexivity|]. split; [reflexivity|].
  split; [reflexivity|].
  apply (lines_processed_is_lines_plus_one login_file _ _
           ltac:(vm_compute; reflexivity) ltac:(reflexivity)).
Defined.

(** ** A second pass *)

Lemma token_offsets_in p l k : token_at p l k -> 0 < length p -> In k (token_offsets p l).
Proof.
  unfold token_at, token_offsets. intros H Hp. apply filter_In. split; [|done].
  apply match_at_length in H. rewrite length_drop in H. apply in_seq. lia.
Qed.

Lemma at_most_one_by_count p l :
  0 < length p -> length (token_offsets p l) <= 1 -> at_most_one_token p l.
Proof.
  intros Hp Hlen i j Hi%token_offsets_in Hj%token_offsets_in; try done.
  destruct (token_offsets p l) as [|a [|b t]]; cbn in *; [done| |lia].
  destruct Hi as [<-|[]], Hj as [<-|[]]. done.
Qed.







(** ** Flushes *)

Lemma line_events_trace size n off l :
  line_trace size l (line_events CC_REPLACE_STR size n off l).
Proof.
  unfold line_trace, line_events, cc_hit, ssn_hit. rewrite search_ssn_after_cc.
  destruct (Re.search cc_pattern l) as [[c ce]|] eqn:Ec;
    destruct (Re.search ssn_pattern l) as [[s se]|] eqn:Es; cbn [orb app].
  - split; [intros H; destruct H; apply search_has_token_inv in Ec; done|].
    intros _. eexists [_; _]. split; [reflexivity|]. by repeat constructor.
  - split; [intros H; destruct H; apply search_has_token_inv in Ec; done|].
    intros _. eexists [_]. split; [reflexivity|]. by repeat constructor.
  - split; [intros _ H; destruct H; apply search_has_token_inv in Es; done|].
    intros _. eexists [_]. split; [reflexivity|]. by repeat constructor.
  - split; [done|]. apply search_None in Ec, Es. intros [|]; contradiction.
Qed.

Lemma events_of_by_line size ls : forall n off,
  exists evs, events_of CC_REPLACE_STR size n off ls = concat evs
              /\ Forall2 (line_trace size) ls evs.
Proof.
  induction ls as [|l ls IH]; intros n off.
  - exists []. split; [done | constructor].
  - destruct (IH (S n) (off + length l)) as (evs & E & F).
    exists (line_events CC_REPLACE_STR size n off l :: evs). cbn [events_of concat].
    rewrite E. split; [done|]. constructor; [apply line_events_trace | done].
Qed.

(** C8, amended. The trace of a pass is made of one block per line: empty
    for a line without a token; for a line with one, the debug events of its
    overwrites followed by exactly one flush, and that flush covers the
    whole mapping (offset 0, the file's length). *)
Theorem flush_whole_mapping_per_redacted_line contents p :
  redact_data contents = Some p ->
  exists evs : list (list event),
    events p = concat evs
    /\ Forall2 (line_trace (length contents)) (lines contents) evs.
Proof.
  destruct contents as [|b c].
  - rewrite redact_data_empty. intros [= <-]. exists []. split; [done | constructor].
  - rewrite redact_data_spec by done. intros [= <-]. apply events_of_by_line.
Qed.

Lemma flush_whole_mapping_per_redacted_line_witness :
  exists p evs,
    redact_data login_file = Some p
    /\ events p = concat evs
    /\ Forall2 (line_trace (length login_file)) (lines login_file) evs.
Proof.
  eexists.
  destruct (flush_whole_mapping_per_redacted_line login_file _ ltac:(vm_compute; reflexivity))
    as (evs & E & F).
  exists evs. split; [reflexivity|]. split; assumption.
Defined.

(** C8 as stated fails: one 24-byte overwrite in the first line of a file
    of 5046 bytes is followed by a flush of all 5046 bytes, which is more
    than the 4096-byte page that holds the overwritten span. *)
Lemma flush_is_not_limited_to_written_pages :
  exists p,
    redact_data long_file = Some p
    /\ events p = [DebugCC 1 8 32; Flush 0 (length long_file)]
    /\ length long_file = 50 * 100 + 46
    /\ flushes_written_pages_only (4 * 1024) [] (events p) = false.
Proof.
  eexists. split; [vm_compute; reflexivity|].
  split; [vm_compute; reflexivity|]. split; vm_compute; reflexivity.
Qed.

(** ** Paths *)

Lemma rfind_from_spec c l : forall i, (0 <= i)%Z ->
  (Fs.rfind_from c l i = (-1)%Z /\ forall j x, l !! j = Some x -> x <> c)
  \/ (exists k : nat, Fs.rfind_from c l i = (i + Z.of_nat k)%Z /\ l !! k = Some c
        /\ forall j x, k < j -> l !! j = Some x -> x <> c).
Proof.
  induction l as [|a l IH]; intros i Hi; cbn [Fs.rfind_from].
  - left. split; [done|]. intros j x H. by destruct j.
  - destruct (IH (i + 1)%Z ltac:(lia)) as [[-> Hno]|(k & -> & Hk & Hlast)].
    + cbn. destruct (Ascii.eqb a c) eqn:E.
      * apply Ascii.eqb_eq in E as ->. right. exists 0. split; [f_equal; lia|].
        split; [done|]. intros [|j] x Hj Hx; [lia|]. by eapply Hno.
      * left. split; [done|]. intros [|j] x Hx; [|by eapply Hno].
        injection Hx as <-. intros ->. by rewrite Ascii.eqb_refl in E.
    + replace (0 <=? i + 1 + Z.of_nat k)%Z with true by (symmetry; apply Z.leb_le; lia).
      right. exists (S k). split; [lia|]. split; [done|].
      intros [|j] x Hj Hx; [lia|]. apply (Hlast j x); [lia | done].
Qed.

Lemma list_ascii_of_string_app a b :
  list_ascii_of_string (a ++ b)%string = list_ascii_of_string a ++ list_ascii_of_string b.
Proof. induction a as [|x a IH]; simpl; [done | by f_equal]. Qed.

(** A non-empty extension starts at the last dot of the path. *)
Lemma splitext_ext p root ext :
  Fs.splitext p = (root, ext) -> ext <> EmptyString ->
  exists d : nat,
    list_ascii_of_string p !! d = Some "."%char
    /\ (forall j x, d < j -> list_ascii_of_string p !! j = Some x -> x <> "."%char)
    /\ root = string_of_list_ascii (take d (list_ascii_of_string p))
    /\ ext = string_of_list_ascii (drop d (list_ascii_of_string p)).
Proof.
  unfold Fs.splitext, Fs.rfind. intros H Hext.
  destruct (rfind_from_spec "."%char (list_ascii_of_string p) 0 ltac:(lia))
    as [[E _]|(d & E & Hd & Hlast)]; rewrite E in H.
  - destruct (_ <? _)%Z eqn:Hlt.
    + apply Z.ltb_lt in Hlt.
      destruct (rfind_from_spec "/"%char (list_ascii_of_string p) 0 ltac:(lia))
        as [[E' _]|(k & E' & _)]; rewrite E' in Hlt; lia.
    + injection H as <- <-. done.
  - destruct (_ <? _)%Z; [|injection H as <- <-; done].
    destruct (forallb _ _); [injection H as <- <-; done|].
    injection H as <- <-. exists d. rewrite Z.add_0_l, Nat2Z.id. done.
Qed.

Lemma splitext_root_differs p root ext :
  Fs.splitext p = (root, ext) -> ext <> EmptyString -> root <> p.
Proof.
  intros H Hext. destruct (splitext_ext _ _ _ H Hext) as (d & Hd & _ & -> & _).
  intros E%(f_equal list_ascii_of_string). rewrite list_ascii_of_string_of_list_ascii in E.
  apply (f_equal length) in E. apply lookup_lt_Some in Hd. rewrite length_take in E. lia.
Qed.



(** ** What each step of a pass writes *)

(** Neither the audit file nor the redacted archive of any file is the
    log file: their names end differently. *)
Lemma audit_path_not_log d : (d ++ ".audit")%string <> Fs.LOG_FILE.
Proof.
  intros E%(f_equal (fun x => rev (list_ascii_of_string x))). cbn beta in E.
  rewrite list_ascii_of_string_app, rev_app_distr in E. simpl in E. discriminate E.
Qed.


Lemma LOG_debug_frame c call (s : gmap string bytes) q :
  q <> Fs.LOG_FILE -> Fs.LOG_debug c call s !! q = s !! q.
Proof. intros Hq. unfold Fs.LOG_debug. by rewrite lookup_insert_ne. Qed.

Lemma LOG_events_frame c dec evs : forall (s : gmap string bytes) q,
  q <> Fs.LOG_FILE -> Fs.LOG_events c dec evs s !! q = s !! q.
Proof.
  unfold Fs.LOG_events. induction evs as [|e evs IH]; intros s q Hq; [done|].
  cbn [foldl]. rewrite IH by done.
  destruct (Fs.log_of_event dec e); [by apply LOG_debug_frame | done].
Qed.

Lemma LOG_totals_frame c elapsed dec a (s : gmap string bytes) q :
  q <> Fs.LOG_FILE -> Fs.LOG_totals c elapsed dec a s !! q = s !! q.
Proof. intros Hq. unfold Fs.LOG_totals. by rewrite !LOG_debug_frame. Qed.

Lemma decompress_file_frame c p (s s' : gmap string bytes) r q :
  Fs.decompress_file c p s = (s', r) -> q <> fst (Fs.splitext p) -> s' !! q = s !! q.
Proof.
  unfold Fs.decompress_file. intros H Hq.
  destruct (s !! p); [|by injection H as <- <-].
  destruct (Fs.gzip_read c _) as [out ok].
  destruct ok; injection H as <- <-; by rewrite !lookup_insert_ne.
Qed.

Lemma decompress_file_name c p (s s' : gmap string bytes) dec :
  Fs.decompress_file c p s = (s', inr dec) -> dec = fst (Fs.splitext p).
Proof.
  unfold Fs.decompress_file. intros H.
  destruct (s !! p); [|by injection H].
  destruct (Fs.gzip_read c _) as [out ok]. destruct ok; by injection H.
Qed.

Lemma redact_data_at_frame c elapsed dec (s s' : gmap string bytes) r q :
  Fs.redact_data_at c elapsed dec s = Some (s', r) ->
  q <> dec -> q <> Fs.LOG_FILE -> s' !! q = s !! q.
Proof.
  unfold Fs.redact_data_at. intros H Hq Hl.
  destruct (s !! dec); [|by injection H as <- <-].
  destruct (redact_data _) as [p|]; [|done]. cbn [mbind option_bind] in H.
  destruct (returned p); injection H as <- <-.
  - by rewrite LOG_events_frame, lookup_insert_ne, LOG_debug_frame.
  - by rewrite LOG_totals_frame, LOG_events_frame, lookup_insert_ne, LOG_debug_frame.
Qed.

Lemma redact_data_at_total c elapsed dec (s : gmap string bytes) :
  exists s' r, Fs.redact_data_at c elapsed dec s = Some (s', r).
Proof.
  unfold Fs.redact_data_at. destruct (s !! dec); [|eauto].
  destruct (redact_data_total
              (default [] (Fs.LOG_debug c (Fs.Redacting_file dec) s !! dec))) as [p ->].
  cbn [mbind option_bind]. destruct (returned p); eauto.
Qed.

Lemma compress_file_frame c dec (s s' : gmap string bytes) r q :
  Fs.compress_file c dec s = (s', r) ->
  q <> dec -> q <> (dec ++ Fs.redacted_suffix)%string -> s' !! q = s !! q.
Proof.
  unfold Fs.compress_file. intros H Hq1 Hq2.
  destruct (Fs.gzip c dec _ _) as [|[z|] rc]; [by injection H as <- <-| |].
  - destruct (rc =? 0)%Z; injection H as <- <-;
      by rewrite lookup_delete_ne, lookup_insert_ne.
  - destruct (rc =? 0)%Z; by injection H as <- <-.
Qed.

Lemma log_audit_metadata_frame elapsed dec a (s : gmap string bytes) q :
  q <> (dec ++ ".audit")%string -> Fs.log_audit_metadata elapsed dec a s !! q = s !! q.
Proof. intros Hq. unfold Fs.log_audit_metadata. by rewrite lookup_insert_ne. Qed.

(** A pass always ends, with a value or an exception. *)
Lemma clean_file_total c elapsed p (s : gmap string bytes) :
  exists s' r, Fs.clean_file c elapsed p s = Some (s', r).
Proof.
  unfold Fs.clean_file.
  destruct (Fs.decompress_file c p _) as [s1 [e|dec]]; [eauto|].
  destruct (redact_data_at_total c elapsed dec s1) as (s2 & r & ->).
  cbn [mbind option_bind].
  destruct r as [e|a]; [eauto|].
  destruct (Fs.compress_file c dec s2) as [s3 [e|[]]]; eauto.
Qed.




(** Why [.audit] is set apart: the audit file of an archive named [x.audit]
    is the archive itself, and the five audit lines are appended to it. *)
Example audit_named_archive_is_appended_to :
  exists s',
    Fs.clean_file stored [] "x.audit" {[ "x.audit"%string := login_file ]}
    = Some (s', inr tt)
    /\ s' !! "x.audit"%string
       = Some (login_file
               ++ Fs.audit_text [] {| total_lines_redacted := 1; total_lines_processed := 3;
                                      total_cc_lines_redacted := 1;
                                      total_ssn_lines_redacted := 0 |}).
Proof. eexists. split; vm_compute; reflexivity. Qed.

(** Why the log file is set apart: an archive named [redacted.log] is the
    file the logger appends to, and the first record of the pass is written
    to it before the archive is read. *)
Example log_named_archive_is_appended_to :
  exists s' r logged,
    Fs.clean_file stored [] "redacted.log" {[ "redacted.log"%string := login_file ]}
    = Some (s', r)
    /\ s' !! "redacted.log"%string = Some logged
    /\ take (length login_file
             + length (Fs.record stored (Fs.Starting_processing "redacted.log"))) logged
       = login_file ++ Fs.record stored (Fs.Starting_processing "redacted.log").
Proof. eexists. eexists. eexists. split_and!; vm_compute; reflexivity. Qed.

(** ** Collecting the results of the pool *)

Lemma wait_all_spec jobs : forall n,
  (snd (Pool.wait_all jobs n) = None
   /\ fst (Pool.wait_all jobs n) = n + length jobs
   /\ Forall (fun j => j = inr tt) jobs)
  \/ (exists before e after,
        jobs = before ++ inl e :: after
        /\ Forall (fun j => j = inr tt) before
        /\ Pool.wait_all jobs n = (n + S (length before), Some e)).
Proof.
  induction jobs as [|[e|[]] jobs IH]; intros n; cbn [Pool.wait_all].
  - left. cbn. split_and!; [done | lia | constructor].
  - right. exists [], e, jobs. cbn. split_and!; [done | constructor | f_equal; lia].
  - destruct (IH (S n)) as [(H1 & H2 & H3)|(before & e & after & -> & HB & HW)].
    + left. split_and!; [done | cbn; lia | by constructor].
    + right. exists (inr tt :: before), e, after. split_and!; [done | by constructor |].
      rewrite HW. cbn. f_equal. lia.
Qed.

(** C9, amended. [clean_files] returns normally exactly when every pass
    succeeded, and then it has collected every result and closed the pool.
    Otherwise it ends with the exception of the first failing file in list
    order: the results of the files before it were collected, those of the
    files after it were not, and the pool was not closed. *)
Theorem clean_files_stops_at_first_failure (worker : string -> exn + unit) files_list :
  (Pool.raised (Pool.clean_files worker files_list) = None
   <-> forall fil, In fil files_list -> worker fil = inr tt)
  /\ (Pool.raised (Pool.clean_files worker files_list) = None ->
      Pool.collected (Pool.clean_files worker files_list) = length files_list
      /\ Pool.pool_closed (Pool.clean_files worker files_list) = true)
  /\ (forall e, Pool.raised (Pool.clean_files worker files_list) = Some e ->
      exists before fil after,
        files_list = before ++ fil :: after
        /\ (forall g, In g before -> worker g = inr tt)
        /\ worker fil = inl e
        /\ Pool.collected (Pool.clean_files worker files_list) = S (length before)
        /\ Pool.pool_closed (Pool.clean_files worker files_list) = false).
Proof.
  unfold Pool.clean_files.
  destruct (wait_all_spec (map worker files_list) 0)
    as [(H1 & H2 & H3)|(before & e & after & Hj & HB & HW)].
  - destruct (Pool.wait_all (map worker files_list) 0) as [n o]. cbn in H1, H2. subst o n.
    cbn. rewrite length_map in *. rewrite List.Forall_forall in H3.
    split_and!; try done.
    split; [|done]. intros _ fil Hin. apply H3. by apply in_map.
  - rewrite HW. cbn.
    apply map_eq_app in Hj as (fb & fr & -> & <- & Hr).
    destruct fr as [|fil fa]; [discriminate|]. cbn in Hr. injection Hr as Hfil _.
    rewrite List.Forall_forall in HB. rewrite length_map.
    split_and!; try done.
    + split; [done|]. intros H. rewrite H in Hfil; [done|].
      apply in_or_app. right. by left.
    + intros e' [= <-]. exists fb, fil, fa. split_and!; try done.
      intros g Hg. apply HB. by apply in_map.
Qed.

(** C9 as stated fails: the first archive is missing, its pass raises
    [IOError], [clean_files] ends with it after one [get]; the second
    file's pass, which succeeds, is never collected. *)
Lemma sibling_result_not_collected :
  let s : gmap string bytes := {[ "b.gz"%string := login_file ]} in
  let files_list := ["a.gz"%string; "b.gz"%string] in
  let b := Pool.clean_files (pass_of stored s) files_list in
  pass_of stored s "a.gz" = inl IOError
  /\ pass_of stored s "b.gz" = inr tt
  /\ Pool.raised b = Some IOError
  /\ Pool.collected b = 1
  /\ length files_list = 2
  /\ Pool.pool_closed b = false.
Proof. vm_compute. done. Qed.

(** ** The size check of the overwrite, for any pair of masks *)

Lemma mm_setslice_line_mismatch m pre l post s n v :
  mm_data m = pre ++ l ++ post -> s + n <= length l -> length v <> n ->
  mm_setslice m (length pre + s) (length pre + (s + n)) v = inl IndexError.
Proof.
  intros Hd Hs Hv. unfold mm_setslice. rewrite Hd, !length_app.
  rewrite !Nat.min_l by lia.
  replace (length pre + (s + n) - (length pre + s)) with n by lia.
  by apply Nat.eqb_neq in Hv as ->.
Qed.

Lemma mm_setslice_length m a b v m' :
  mm_setslice m a b v = inr m' -> length (mm_data m') = length (mm_data m).
Proof.
  unfold mm_setslice. destruct (Nat.eqb_spec (length v)
    (Nat.min b (length (mm_data m)) - Nat.min a (length (mm_data m)))) as [E|]; [|done].
  intros [= <-]. cbn. rewrite !length_app, length_take, length_drop. lia.
Qed.

Section AnyMask.

Variable cc_mask ssn_mask : bytes.

Lemma cc_step_any pre l post st :
  mm_data (mm st) = pre ++ l ++ post ->
  current_line_offset st = length pre ->
  next_line_offset st = length pre + length l ->
  match cc_step cc_mask l st with
  | inl (e, st') =>
      e = IndexError /\ mm st' = mm st /\ length cc_mask <> length cc_pattern
  | inr (l1, _, st') =>
      length l1 = length l /\ mm_data (mm st') = pre ++ l1 ++ post
      /\ mm_pos (mm st') = mm_pos (mm st)
      /\ current_line_offset st' = length pre
      /\ next_line_offset st' = next_line_offset st
      /\ (has_token cc_pattern l -> length cc_mask = length cc_pattern)
      /\ (has_token ssn_pattern l -> has_token ssn_pattern l1)
  end.
Proof.
  intros Hd Hc Hn. unfold cc_step. rewrite Hc, Hn.
  destruct (Re.search cc_pattern l) as [[c e]|] eqn:Ec.
  - pose proof Ec as (Hm & -> & Hle)%search_cc_token.
    destruct (decide (length cc_mask = length cc_pattern)) as [Hlen|Hlen].
    + change (c + 24) with (c + length cc_pattern). rewrite <- Hlen.
      assert (Hcl : c + length cc_mask <= length l) by (rewrite Hlen; cbn; lia).
      rewrite (mm_setslice_line _ pre l post c cc_mask) by done.
      rewrite (mm_getslice_line _ pre (overwrite l c cc_mask) post)
        by (done || (rewrite length_overwrite by lia; done)).
      cbn. split_and!; try done.
      * by apply length_overwrite.
      * intros [k Hk]. exists k. unfold token_at in *.
        rewrite match_at_overwrite_away; [done | done |].
        pose proof (cc_ssn_apart l c k Hm Hk). cbn in *. lia.
    + rewrite (mm_setslice_line_mismatch _ pre l post c 24 cc_mask) by (done || cbn in *; lia).
      done.
  - split_and!; try done. intros H. apply search_None in Ec. contradiction.
Qed.

Lemma ssn_step_any pre l post st :
  mm_data (mm st) = pre ++ l ++ post ->
  current_line_offset st = length pre ->
  match ssn_step ssn_mask l st with
  | inl (e, st') =>
      e = IndexError /\ mm st' = mm st /\ length ssn_mask <> length ssn_pattern
  | inr (_, st') =>
      exists l2, length l2 = length l /\ mm_data (mm st') = pre ++ l2 ++ post
      /\ mm_pos (mm st') = mm_pos (mm st)
      /\ next_line_offset st' = next_line_offset st
      /\ (has_token ssn_pattern l -> length ssn_mask = length ssn_pattern)
  end.
Proof.
  intros Hd Hc. unfold ssn_step. rewrite Hc.
  destruct (Re.search ssn_pattern l) as [[s e]|] eqn:Es.
  - pose proof Es as (Hm & -> & Hle)%search_ssn_token.
    destruct (decide (length ssn_mask = length ssn_pattern)) as [Hlen|Hlen].
    + change (s + 17) with (s + length ssn_pattern). rewrite <- Hlen.
      assert (Hsl : s + length ssn_mask <= length l) by (rewrite Hlen; cbn; lia).
      rewrite (mm_setslice_line _ pre l post s ssn_mask) by done.
      exists (overwrite l s ssn_mask). cbn. split_and!; try done.
      by apply length_overwrite.
    + rewrite (mm_setslice_line_mismatch _ pre l post s 17 ssn_mask) by (done || cbn in *; lia).
      done.
  - exists l. split_and!; try done. intros H. apply search_None in Es. contradiction.
Qed.

(** One turn of the loop: it raises [IndexError] at a mask of the wrong
    length, or leaves a view of the same size ready for the next line. *)
Lemma loop_body_any pre l post st :
  mm_data (mm st) = pre ++ l ++ post ->
  current_line_offset st = length pre ->
  match loop_body cc_mask ssn_mask l
          {| mm_data := mm_data (mm st); mm_pos := length pre + length l |} st with
  | Finished st' =>
      (exists l2, length l2 = length l /\ at_line_start (pre ++ l2) post st')
      /\ (has_token cc_pattern l -> length cc_mask = length cc_pattern)
      /\ (has_token ssn_pattern l -> length ssn_mask = length ssn_pattern)
  | Raised e st' =>
      e = IndexError /\ length (mm_data (mm st')) = length (mm_data (mm st)) /\ size_fault cc_mask ssn_mask
  | OutOfFuel => False
  end.
Proof.
  intros Hd Hc. unfold loop_body.
  match goal with |- context [cc_step cc_mask l ?s0] =>
    pose proof (cc_step_any pre l post s0 Hd Hc eq_refl) as HCC;
    destruct (cc_step cc_mask l s0) as [[e st1]|[[l1 b1] st1]]
  end.
  - destruct HCC as (-> & -> & Hlen). cbn. split_and!; [done | done | by left].
  - destruct HCC as (Hl1 & Hd1 & Hp1 & Hc1 & Hn1 & Hcc & Hssn). cbn in Hp1, Hn1.
    pose proof (ssn_step_any pre l1 post st1 Hd1 Hc1) as HS.
    destruct (ssn_step ssn_mask l1 st1) as [[e st2]|[b2 st2]].
    + destruct HS as (-> & -> & Hlen). split_and!; [done | | by right].
      rewrite Hd1, Hd, !length_app. lia.
    + destruct HS as (l2 & Hl2 & Hd2 & Hp2 & Hn2 & Hs2).
      split_and!; [|done|by auto]. exists l2. split; [congruence|].
      unfold at_line_start, end_of_line. cbn.
      rewrite Hd2, Hp2, Hp1, Hn2, Hn1, length_app, Hl2, Hl1, <- app_assoc. done.
Qed.

Lemma redact_loop_any ls : forall rest pre st fuel,
  lines rest = ls -> at_line_start pre rest st -> length ls < fuel ->
  match redact_loop cc_mask ssn_mask fuel st with
  | Finished st' =>
      length (mm_data (mm st')) = length (mm_data (mm st))
      /\ (forall l, In l ls -> has_token cc_pattern l -> length cc_mask = length cc_pattern)
      /\ (forall l, In l ls -> has_token ssn_pattern l ->
            length ssn_mask = length ssn_pattern)
  | Raised e st' =>
      e = IndexError /\ length (mm_data (mm st')) = length (mm_data (mm st)) /\ size_fault cc_mask ssn_mask
  | OutOfFuel => False
  end.
Proof.
  induction ls as [|l ls IH]; intros rest pre st fuel Hl (Hd & Hp & Hc) Hf.
  - destruct fuel as [|fuel]; [cbn in Hf; lia|].
    destruct rest as [|b rest]; [|rewrite lines_unfold in Hl; done].
    cbn [redact_loop]. destruct (mm st) as [d p] eqn:Em. cbn in Hd, Hp. subst d p.
    rewrite mm_readline_at. cbn. rewrite Em. split_and!; [done | intros ? [] | intros ? []].
  - destruct fuel as [|fuel]; [cbn in Hf; lia|].
    apply lines_cons_inv in Hl as (Hne & Htake & Hrest & Hls).
    cbn [redact_loop]. destruct (mm st) as [d p] eqn:Em. cbn in Hd, Hp. subst d p.
    rewrite mm_readline_at, <- Htake.
    destruct l as [|b l'] eqn:El; [done|]. rewrite <- El in *. clear El b l' Hne.
    assert (Hd : mm_data (mm st) = pre ++ l ++ drop (eol rest) rest)
      by (rewrite Em; cbn; by rewrite <- Hrest).
    assert (Hlen : eol rest = length l).
    { rewrite Htake, length_take. pose proof (eol_bounds rest).
      destruct rest; [by subst l|]. specialize (H ltac:(done)). lia. }
    rewrite Hlen.
    replace (pre ++ rest) with (mm_data (mm st)) by (rewrite Em; done).
    pose proof (loop_body_any pre l (drop (eol rest) rest) st Hd Hc) as HB.
    destruct (loop_body cc_mask ssn_mask l _ st) as [st1|e st1|]; [| |done].
    + destruct HB as ((l2 & Hl2 & Hstart) & Hcc & Hssn).
      assert (Hsize : length (mm_data (mm st1)) = length (mm_data (mm st))).
      { destruct Hstart as (-> & _). rewrite Hd, !length_app. lia. }
      specialize (IH _ _ st1 fuel Hls Hstart ltac:(cbn in Hf; lia)).
      destruct (redact_loop cc_mask ssn_mask fuel st1) as [st2|e st2|]; [| |done].
      * destruct IH as (I1 & I2 & I3). split_and!; [congruence | |].
        -- intros x [<-|Hx]; [exact Hcc | by apply I2].
        -- intros x [<-|Hx]; [exact Hssn | by apply I3].
      * destruct IH as (I1 & I2 & I3). split_and!; [done | congruence | done].
    + exact HB.
Qed.

End AnyMask.

(** C7. Whatever the two masks are, a pass ends and never changes the size
    of the file. Every overwrite goes through the size check of the slice
    assignment: when a line holds a token whose mask has not the length of
    the matched span, the pass ends with [IndexError] instead of a result;
    a pass that returns a result has met no such token; and [IndexError] is
    raised for no other reason. *)
Theorem overwrite_size_checked cc_mask ssn_mask contents :
  exists p,
    redact_data_with cc_mask ssn_mask contents = Some p
    /\ length (file_after p) = length contents
    /\ (length cc_mask <> length cc_pattern ->
        (exists line, In line (lines contents) /\ has_token cc_pattern line) ->
        returned p = inl IndexError)
    /\ (length ssn_mask <> length ssn_pattern ->
        (exists line, In line (lines contents) /\ has_token ssn_pattern line) ->
        returned p = inl IndexError)
    /\ (forall a, returned p = inr a ->
        forall line, In line (lines contents) ->
          (has_token cc_pattern line -> length cc_mask = length cc_pattern)
          /\ (has_token ssn_pattern line -> length ssn_mask = length ssn_pattern))
    /\ (returned p = inl IndexError -> size_fault cc_mask ssn_mask).
Proof.
  unfold redact_data_with. destruct contents as [|b c].
  - eexists. split; [reflexivity|]. cbn.
    split_and!; try done; by intros _ (line & [] & _).
  - set (contents := b :: c).
    pose proof (redact_loop_any cc_mask ssn_mask (lines contents) contents []
                  (initial contents) (S (length contents)) eq_refl) as H.
    specialize (H ltac:(done) ltac:(pose proof (length_lines contents); lia)).
    destruct (redact_loop cc_mask ssn_mask (S (length contents)) (initial contents))
      as [st|e st|]; [| |done].
    + destruct H as (Hlen & Hcc & Hssn). eexists. split; [reflexivity|].
      cbn [file_after returned]. split_and!.
      * exact Hlen.
      * intros Hne (line & Hin & Ht). destruct Hne. eauto.
      * intros Hne (line & Hin & Ht). destruct Hne. eauto.
      * intros a _ line Hin. split; eauto.
      * discriminate.
    + destruct H as (-> & Hlen & Hfault). eexists. split; [reflexivity|].
      cbn [file_after returned]. split_and!; try done.
Qed.

(** The check at work: the 22-byte mask on the sample file. The debug
    message is logged, the assignment raises, the file is as it was. *)
Example short_mask_raises :
  redact_data_with short_mask SSN_REPLACE_STR login_file
  = Some {| file_after := login_file; events := [DebugCC 1 8 32];
            returned := inl IndexError |}.
Proof. vm_compute. reflexivity. Qed.

(** ** Further properties of the scan *)


(** The scenario of one card number:
    [user=42 CC="1234-5678-9012-3456" action=login] becomes
    [user=42 CC="xxxx-xxxx-xxxx-xxxx" action=login], with one credit-card
    redaction, no SSN redaction and one redacted line. *)
Example login_scenario :
  redact_data login_line
  = Some {| file_after :=
              text "user=42 " ++ CC_REPLACE_STR ++ text " action=login" ++ [newline];
            events := [DebugCC 1 8 32; Flush 0 46];
            returned := inr {| total_lines_redacted := 1; total_lines_processed := 2;
                               total_cc_lines_redacted := 1;
                               total_ssn_lines_redacted := 0 |} |}.
Proof. vm_compute. reflexivity. Qed.

(** The scenario of both tokens on one line:
    [SSN="123-45-6789" CC="1111-2222-3333-4444"] has both masked, one
    redacted line and one redaction per class. *)
Example both_scenario :
  redact_data both_line
  = Some {| file_after := SSN_REPLACE_STR ++ text " " ++ CC_REPLACE_STR ++ [newline];
            events := [DebugCC 1 18 42; DebugSSN 1 0 17; Flush 0 43];
            returned := inr {| total_lines_redacted := 1; total_lines_processed := 2;
                               total_cc_lines_redacted := 1;
                               total_ssn_lines_redacted := 1 |} |}.
Proof. vm_compute. reflexivity. Qed.

(** X2. The SSN search gives the same span on the line re-read after the
    credit-card overwrite as on the line first read. *)
Theorem ssn_search_same_after_reread l :
  Re.search ssn_pattern (after_cc CC_REPLACE_STR l) = Re.search ssn_pattern l.
Proof. apply search_ext. intros k. apply ssn_windows_after_cc. Qed.

(** X3. Each mask has the length of the spans its pattern matches, and
    neither mask matches either pattern. *)
Theorem masks_fit_and_do_not_match :
  length CC_REPLACE_STR = length cc_pattern
  /\ length SSN_REPLACE_STR = length ssn_pattern
  /\ Re.search cc_pattern CC_REPLACE_STR = None
  /\ Re.search ssn_pattern SSN_REPLACE_STR = None
  /\ Re.search cc_pattern SSN_REPLACE_STR = None
  /\ Re.search ssn_pattern CC_REPLACE_STR = None.
Proof. vm_compute. done. Qed.

(** ** Which tokens a pass leaves *)

Lemma cc_windows_after_cc l k :
  Re.match_at cc_pattern (drop k (after_cc CC_REPLACE_STR l))
  = match Re.search cc_pattern l with
    | Some (c, _) => if decide (k = c) then false else Re.match_at cc_pattern (drop k l)
    | None => Re.match_at cc_pattern (drop k l)
    end.
Proof.
  unfold after_cc. destruct (Re.search cc_pattern l) as [[c ce]|] eqn:Ec; [|done].
  apply search_cc_token in Ec as (Hc & _ & _).
  apply overwrite_windows_own; auto using unbordered_cc, isolated_cc_ccmask; cbn; lia.
Qed.

Lemma cc_windows_after_ssn l k :
  Re.match_at cc_pattern (drop k (after_ssn SSN_REPLACE_STR l))
  = Re.match_at cc_pattern (drop k l).
Proof.
  unfold after_ssn. destruct (Re.search ssn_pattern l) as [[s se]|] eqn:Es; [|done].
  apply search_ssn_token in Es as (Hs & _ & _).
  apply (overwrite_windows_other _ ssn_pattern);
    auto using isolated_cc_ssn, isolated_cc_ssnmask; cbn; lia.
Qed.

Lemma ssn_windows_after_ssn l k :
  Re.match_at ssn_pattern (drop k (after_ssn SSN_REPLACE_STR l))
  = match Re.search ssn_pattern l with
    | Some (s, _) => if decide (k = s) then false else Re.match_at ssn_pattern (drop k l)
    | None => Re.match_at ssn_pattern (drop k l)
    end.
Proof.
  unfold after_ssn. destruct (Re.search ssn_pattern l) as [[s se]|] eqn:Es; [|done].
  apply search_ssn_token in Es as (Hs & _ & _).
  apply overwrite_windows_own; auto using unbordered_ssn, isolated_ssn_ssnmask; cbn; lia.
Qed.

(** The windows of the redacted line, by those of the line as read. *)
Lemma redact_line_windows_cc l k :
  Re.match_at cc_pattern (drop k (redact_line l))
  = match Re.search cc_pattern l with
    | Some (c, _) => if decide (k = c) then false else Re.match_at cc_pattern (drop k l)
    | None => Re.match_at cc_pattern (drop k l)
    end.
Proof.
  unfold redact_line, redact_line_with. rewrite cc_windows_after_ssn. apply cc_windows_after_cc.
Qed.

Lemma redact_line_windows_ssn l k :
  Re.match_at ssn_pattern (drop k (redact_line l))
  = match Re.search ssn_pattern l with
    | Some (s, _) => if decide (k = s) then false else Re.match_at ssn_pattern (drop k l)
    | None => Re.match_at ssn_pattern (drop k l)
    end.
Proof.
  unfold redact_line, redact_line_with. rewrite ssn_windows_after_ssn, search_ssn_after_cc.
  destruct (Re.search ssn_pattern l) as [[s se]|]; [destruct (decide (k = s)); [done|]|];
    apply ssn_windows_after_cc.
Qed.

Lemma survives_by_search p l k :
  survives p l k <->
  match Re.search p l with
  | Some (c, _) => (if decide (k = c) then false else Re.match_at p (drop k l)) = true
  | None => Re.match_at p (drop k l) = true
  end.
Proof.
  unfold survives. destruct (Re.search p l) as [[c ce]|] eqn:E.
  - apply search_Some in E as [Fc _]. destruct (decide (k = c)) as [->|Hne].
    + split; [intros [_ H]; by destruct H | done].
    + split; [by intros [H _]|]. intros H. split; [done|].
      intros Fk. apply Hne. by eapply first_token_unique.
  - apply search_None in E. split; [by intros [H _]|]. intros H. destruct E. by exists k.
Qed.

(** X4. Only the leftmost token of each class is masked: the tokens of the
    redacted line are the tokens of the line as read, the leftmost credit-card
    token and the leftmost SSN token apart; a pass creates no token and
    moves none. *)
Theorem only_leftmost_token_masked l k :
  (token_at cc_pattern (redact_line l) k <-> survives cc_pattern l k)
  /\ (token_at ssn_pattern (redact_line l) k <-> survives ssn_pattern l k).
Proof.
  split; unfold token_at; rewrite survives_by_search.
  - rewrite redact_line_windows_cc. by destruct (Re.search cc_pattern l) as [[c ?]|].
  - rewrite redact_line_windows_ssn. by destruct (Re.search ssn_pattern l) as [[c ?]|].
Qed.

(** Counting the tokens of a line. *)
Lemma filter_drop_one (f : nat -> bool) c xs :
  NoDup xs -> In c xs -> f c = true ->
  length (List.filter (fun k => if decide (k = c) then false else f k) xs)
  = pred (length (List.filter f xs)).
Proof.
  induction xs as [|x xs IH]; intros Hnd Hin Hc; [done|].
  apply NoDup_cons in Hnd as [Hx Hnd]. cbn [List.filter].
  destruct (decide (x = c)) as [->|Hne].
  - rewrite Hc. cbn. f_equal. apply filter_ext_in. intros k Hk.
    destruct (decide (k = c)) as [->|]; [|done]. destruct Hx. by apply list_elem_of_In.
  - destruct Hin as [|Hin]; [done|]. specialize (IH Hnd Hin Hc).
    destruct (f x); cbn; [|done]. rewrite IH.
    assert (In c (List.filter f xs)) by (apply filter_In; done).
    destruct (List.filter f xs); [done | reflexivity].
Qed.

Lemma token_offsets_redacted p l :
  (forall k, Re.match_at p (drop k (redact_line l))
             = match Re.search p l with
               | Some (c, _) => if decide (k = c) then false else Re.match_at p (drop k l)
               | None => Re.match_at p (drop k l)
               end) ->
  0 < length p ->
  length (token_offsets p (redact_line l)) = pred (length (token_offsets p l)).
Proof.
  intros Hw Hp. unfold token_offsets. rewrite redact_line_length.
  erewrite filter_ext; [|exact Hw].
  destruct (Re.search p l) as [[c ce]|] eqn:E.
  - pose proof E as [_ Hle]%search_span; [|done].
    pose proof E as [[Hc _] ->]%search_Some.
    apply filter_drop_one; [| apply in_seq; lia | done].
    apply NoDup_ListNoDup, seq_NoDup.
  - replace (List.filter _ _) with (@nil nat); [done|]. symmetry.
    apply search_None in E. induction (seq 0 (S (length l))) as [|x xs IH]; [done|].
    cbn. destruct (Re.match_at p (drop x l)) eqn:M; [|done]. destruct E. by exists x.
Qed.

(** X5. A pass removes exactly one token of each class from every line that
    has one: a line with [n] card numbers has [n - 1] after the pass, and
    likewise for SSNs. *)
Theorem pass_removes_one_token_per_class contents p i line :
  redact_data contents = Some p ->
  lines contents !! i = Some line ->
  exists line',
    lines (file_after p) !! i = Some line'
    /\ length (token_offsets cc_pattern line') = pred (length (token_offsets cc_pattern line))
    /\ length (token_offsets ssn_pattern line')
       = pred (length (token_offsets ssn_pattern line)).
Proof.
  intros Hp Hi. exists (redact_line line).
  split; [by apply (redacted_line_lookup contents)|].
  split; apply token_offsets_redacted; cbn; try lia.
  - apply redact_line_windows_cc.
  - apply redact_line_windows_ssn.
Qed.

Lemma pass_removes_one_token_per_class_witness :
  exists p line',
    redact_data two_cards = Some p
    /\ length (token_offsets cc_pattern two_cards) = 2
    /\ lines (file_after p) !! 0 = Some line'
    /\ length (token_offsets cc_pattern line') = 1.
Proof.
  eexists.
  destruct (pass_removes_one_token_per_class two_cards _ 0 two_cards
              ltac:(vm_compute; reflexivity) ltac:(reflexivity))
    as (line' & Hl & Hc & _).
  exists line'. split; [reflexivity|]. split; [vm_compute; reflexivity|].
  split; [exact Hl|]. rewrite Hc. vm_compute. reflexivity.
Defined.

(** ** Tokens and line boundaries *)

Lemma lines_all_but_last_terminated c : all_but_last_terminated (lines c).
Proof.
  induction c as [|b c IH]; [done|]. cbn [lines].
  destruct (is_nl b) eqn:Eb.
  - cbn. destruct (lines c); [done|]. split; [|done]. by apply is_nl_true in Eb as ->.
  - destruct (lines c) as [|ln lns]; [done|]. cbn. destruct lns as [|ln' lns]; [done|].
    cbn in IH. destruct IH as [Hlast IH]. split; [|done].
    destruct ln; [done|]. done.
Qed.

Lemma token_in_concat p ls : forall j,
  rejects_nl p = true -> 0 < length p ->
  all_but_last_terminated ls ->
  Re.match_at p (drop j (concat ls)) = true ->
  exists i line k, ls !! i = Some line /\ j = length (concat (take i ls)) + k
                   /\ Re.match_at p (drop k line) = true.
Proof.
  intros j Hnl Hp. revert j. induction ls as [|l ls IH]; intros j Hwf Hm.
  - cbn in Hm. rewrite drop_nil in Hm. apply match_at_length in Hm. cbn in Hm. lia.
  - cbn [concat] in Hm. destruct (decide (length l <= j)) as [Hge|Hlt].
    + rewrite drop_app_ge in Hm by done.
      destruct (IH (j - length l)) as (i & line & k & Hi & Hj & Hk); [|done|].
      { cbn in Hwf. destruct ls; [done | apply Hwf]. }
      exists (S i), line, k. split; [done|]. split; [|done].
      cbn [take concat]. rewrite length_app. lia.
    + destruct (decide (j + length p <= length l)) as [Hin|Hout].
      * exists 0, l, j. split; [done|]. split; [done|]. rewrite <- Hm.
        apply match_at_ext. intros d Hd. rewrite !lookup_drop.
        by rewrite lookup_app_l by lia.
      * destruct ls as [|l' ls].
        { cbn in Hm. rewrite app_nil_r in Hm. apply match_at_length in Hm.
          rewrite length_drop in Hm. lia. }
        cbn in Hwf. destruct Hwf as [Hlast _]. rewrite last_lookup in Hlast.
        destruct (lookup_lt_is_Some_2 p (length l - 1 - j)) as [a Ha]; [lia|].
        destruct (proj1 (match_at_lookup _ _) Hm _ _ Ha) as (b & Hb & Hacc).
        rewrite lookup_drop, lookup_app_l in Hb by lia.
        replace (j + (length l - 1 - j)) with (pred (length l)) in Hb by lia.
        rewrite Hlast in Hb. injection Hb as <-.
        unfold rejects_nl in Hnl. rewrite forallb_forall in Hnl.
        assert (Hin : In a p) by (apply list_elem_of_In; by eapply list_elem_of_lookup_2).
        apply Hnl in Hin. by rewrite Hacc in Hin.
Qed.

Lemma token_in_file p contents j :
  rejects_nl p = true -> 0 < length p ->
  token_at p contents j ->
  exists i line k, lines contents !! i = Some line /\ j = line_offset contents i + k
                   /\ token_at p line k.
Proof.
  intros Hnl Hp Hj. unfold token_at in Hj. rewrite <- (concat_lines contents) in Hj.
  apply token_in_concat in Hj; try done. apply lines_all_but_last_terminated.
Qed.

(** X6. No token straddles a line feed: every credit-card or SSN token of the
    file lies inside one line, at the line's offset plus the token's
    offset in the line, so the line-by-line search sees every token. *)
Theorem tokens_lie_within_lines contents j :
  (token_at cc_pattern contents j ->
   exists i line k, lines contents !! i = Some line /\ j = line_offset contents i + k
                    /\ token_at cc_pattern line k)
  /\ (token_at ssn_pattern contents j ->
      exists i line k, lines contents !! i = Some line /\ j = line_offset contents i + k
                       /\ token_at ssn_pattern line k).
Proof. split; apply token_in_file; cbn; (reflexivity || lia). Qed.

Lemma survivor_needs_two p l k :
  at_most_one_token p l -> survives p l k -> False.
Proof.
  intros Hone [Hk Hnf]. destruct (search_has_token p l) as [c Ec]; [by exists k|].
  apply search_Some in Ec as [Fc _]. destruct Fc as [Hc Hlt].
  assert (k = c) by (by apply Hone). subst. apply Hnf. by split.
Qed.

(** X7. With at most one token of each class on every line (the program's
    one-record-per-line assumption), the file a pass leaves holds no
    credit-card token and no SSN token at any offset. *)
Theorem no_token_left_in_file contents p :
  (forall line, In line (lines contents) ->
     at_most_one_token cc_pattern line /\ at_most_one_token ssn_pattern line) ->
  redact_data contents = Some p ->
  forall j, ~ token_at cc_pattern (file_after p) j /\ ~ token_at ssn_pattern (file_after p) j.
Proof.
  intros Hone Hp j.
  assert (Hline : forall i line', lines (file_after p) !! i = Some line' ->
            exists line, In line (lines contents) /\ line' = redact_line line).
  { intros i line' Hi. rewrite (redact_data_lines _ _ Hp), list_lookup_fmap in Hi.
    destruct (lines contents !! i) as [line|] eqn:E; [|done]. injection Hi as <-.
    exists line. split; [|done]. apply list_elem_of_In. by eapply list_elem_of_lookup_2. }
  split; intros Hj.
  - apply token_in_file in Hj as (i & line' & k & Hi & _ & Hk); [|done|cbn; lia].
    destruct (Hline _ _ Hi) as (line & Hin & ->).
    unfold token_at in Hk. rewrite redact_line_windows_cc in Hk.
    apply (survivor_needs_two cc_pattern line k); [by apply Hone|].
    apply survives_by_search. by destruct (Re.search cc_pattern line) as [[c ?]|].
  - apply token_in_file in Hj as (i & line' & k & Hi & _ & Hk); [|done|cbn; lia].
    destruct (Hline _ _ Hi) as (line & Hin & ->).
    unfold token_at in Hk. rewrite redact_line_windows_ssn in Hk.
    apply (survivor_needs_two ssn_pattern line k); [by apply Hone|].
    apply survives_by_search. by destruct (Re.search ssn_pattern line) as [[c ?]|].
Qed.

Lemma no_token_left_in_file_witness :
  exists p, redact_data login_file = Some p
    /\ token_at cc_pattern login_file 8
    /\ forall j, ~ token_at cc_pattern (file_after p) j
                 /\ ~ token_at ssn_pattern (file_after p) j.
Proof.
  eexists. split; [vm_compute; reflexivity|]. split; [vm_compute; reflexivity|].
  apply (no_token_left_in_file login_file _
           ltac:(intros line [<-|[<-|[]]]; split; apply at_most_one_by_count;
                 vm_compute; lia)
           ltac:(vm_compute; reflexivity)).
Defined.

(** ** Line feeds and line counts *)






(** ** Redacting a concatenation *)

Lemma lines_app_terminated a b :
  last a = Some newline -> lines (a ++ b) = lines a ++ lines b.
Proof.
  induction a as [|x a IH]; [done|]. intros Hlast. cbn [app lines].
  destruct a as [|y a].
  - cbn in Hlast. injection Hlast as ->. reflexivity.
  - change (last (x :: y :: a)) with (last (y :: a)) in Hlast. rewrite (IH Hlast).
    destruct (is_nl x); [done|].
    destruct (lines (y :: a)) as [|ln lns] eqn:E; [|done].
    pose proof (concat_lines (y :: a)) as Hc. by rewrite E in Hc.
Qed.




(** ** The debug log *)

Lemma redact_line_cc_window l c e :
  Re.search cc_pattern l = Some (c, e) ->
  take (length CC_REPLACE_STR) (drop c (redact_line l)) = CC_REPLACE_STR.
Proof.
  intros Ec. rewrite redact_line_cases, Ec.
  pose proof Ec as (Hc & _ & Hcl)%search_cc_token.
  destruct (Re.search ssn_pattern l) as [[s se]|] eqn:Es.
  - pose proof Es as (Hs & _ & Hsl)%search_ssn_token.
    pose proof (cc_ssn_apart l c s Hc Hs).
    rewrite overwrite_window_away by (rewrite ?length_overwrite; cbn; lia).
    apply overwrite_window. cbn; lia.
  - apply overwrite_window. cbn; lia.
Qed.

Lemma redact_line_ssn_window l s e :
  Re.search ssn_pattern l = Some (s, e) ->
  take (length SSN_REPLACE_STR) (drop s (redact_line l)) = SSN_REPLACE_STR.
Proof.
  intros Es. unfold redact_line, redact_line_with, after_ssn.
  rewrite search_ssn_after_cc, Es.
  pose proof Es as (_ & _ & Hsl)%search_ssn_token.
  apply overwrite_window.
  rewrite <- (length_map is_nl (after_cc CC_REPLACE_STR l)), after_cc_is_nl, length_map.
  cbn; lia.
Qed.

Lemma events_of_debug size ls : forall n0 off ev,
  In ev (events_of CC_REPLACE_STR size n0 off ls) ->
  ev = Flush 0 size
  \/ exists i line t e,
       ls !! i = Some line
       /\ ((ev = DebugCC (n0 + i) (off + length (concat (take i ls)) + t)
                   (off + length (concat (take i ls)) + e)
            /\ Re.search cc_pattern line = Some (t, e))
           \/ (ev = DebugSSN (n0 + i) (off + length (concat (take i ls)) + t)
                      (off + length (concat (take i ls)) + e)
               /\ Re.search ssn_pattern line = Some (t, e))).
Proof.
  induction ls as [|l ls IH]; intros n0 off ev Hin; [done|].
  cbn [events_of] in Hin. apply in_app_or in Hin as [Hin|Hin].
  - unfold line_events in Hin. rewrite search_ssn_after_cc in Hin.
    apply in_app_or in Hin as [Hin|Hin]; [|apply in_app_or in Hin as [Hin|Hin]].
    + destruct (Re.search cc_pattern l) as [[t e]|] eqn:Ec; [|done].
      destruct Hin as [<-|[]]. right. exists 0, l, t, e. split; [done|]. left.
      cbn. rewrite !Nat.add_0_r. done.
    + destruct (Re.search ssn_pattern l) as [[t e]|] eqn:Es; [|done].
      destruct Hin as [<-|[]]. right. exists 0, l, t, e. split; [done|]. right.
      cbn. rewrite !Nat.add_0_r. done.
    + destruct (_ || _); [|done]. destruct Hin as [<-|[]]. by left.
  - apply IH in Hin as [->|(i & line & t & e & Hi & H)]; [by left|].
    right. exists (S i), line, t, e. split; [done|].
    cbn [take concat]. rewrite length_app.
    replace (n0 + S i) with (S n0 + i) by lia.
    replace (off + (length l + length (concat (take i ls))))
      with (off + length l + length (concat (take i ls))) by lia.
    done.
Qed.

Lemma redact_data_events contents p :
  redact_data contents = Some p ->
  events p = events_of CC_REPLACE_STR (length contents) 1 0 (lines contents).
Proof.
  destruct contents as [|b c].
  - rewrite redact_data_empty. by intros [= <-].
  - rewrite redact_data_spec by done. by intros [= <-].
Qed.

(** X11. The debug log is accurate: a logged credit-card (SSN) redaction
    names the 1-based number of a line that holds such a token, and the span
    it names is where the leftmost token stood in the file and where the
    mask stands in the file the pass leaves. *)
Theorem debug_log_names_masked_spans contents p n lo hi :
  redact_data contents = Some p ->
  (In (DebugCC n lo hi) (events p) ->
   exists i line c,
     n = i + 1 /\ lines contents !! i = Some line /\ first_token cc_pattern line c
     /\ lo = line_offset contents i + c /\ hi = lo + length CC_REPLACE_STR
     /\ take (hi - lo) (drop lo (file_after p)) = CC_REPLACE_STR)
  /\ (In (DebugSSN n lo hi) (events p) ->
      exists i line s,
        n = i + 1 /\ lines contents !! i = Some line /\ first_token ssn_pattern line s
        /\ lo = line_offset contents i + s /\ hi = lo + length SSN_REPLACE_STR
        /\ take (hi - lo) (drop lo (file_after p)) = SSN_REPLACE_STR).
Proof.
  intros Hp. rewrite (redact_data_events _ _ Hp). split; intros Hin.
  - apply events_of_debug in Hin as [?|(i & line & t & e & Hi & [[E Hs]|[E _]])]; try done.
    injection E as -> -> ->.
    pose proof Hs as (_ & -> & Hle)%search_cc_token.
    pose proof Hs as [Ft _]%search_Some.
    exists i, line, t. fold (line_offset contents i). split_and!; try done; try (cbn; lia).
    match goal with |- take ?n _ = _ =>
      replace n with (length CC_REPLACE_STR) by (cbn; lia) end.
    change (0 + line_offset contents i + t) with (line_offset contents i + t).
    rewrite (file_window _ _ _ line) by (done || cbn; lia).
    by eapply redact_line_cc_window.
  - apply events_of_debug in Hin as [?|(i & line & t & e & Hi & [[E _]|[E Hs]])]; try done.
    injection E as -> -> ->.
    pose proof Hs as (_ & -> & Hle)%search_ssn_token.
    pose proof Hs as [Ft _]%search_Some.
    exists i, line, t. fold (line_offset contents i). split_and!; try done; try (cbn; lia).
    match goal with |- take ?n _ = _ =>
      replace n with (length SSN_REPLACE_STR) by (cbn; lia) end.
    change (0 + line_offset contents i + t) with (line_offset contents i + t).
    rewrite (file_window _ _ _ line) by (done || cbn; lia).
    by eapply redact_line_ssn_window.
Qed.

Lemma debug_log_names_masked_spans_witness :
  exists p, redact_data both_line = Some p
    /\ In (DebugCC 1 18 42) (events p)
    /\ take (42 - 18) (drop 18 (file_after p)) = CC_REPLACE_STR.
Proof.
  eexists. split; [vm_compute; reflexivity|].
  split; [vm_compute; auto|].
  destruct (debug_log_names_masked_spans both_line _ 1 18 42 ltac:(vm_compute; reflexivity))
    as [H _].
  destruct (H ltac:(vm_compute; auto)) as (i & line & c & _ & _ & _ & _ & _ & Hw).
  exact Hw.
Defined.

(** ** The files of a pass *)

Lemma string_app_inv d x y : (d ++ x)%string = (d ++ y)%string -> x = y.
Proof.
  intros E%(f_equal list_ascii_of_string). rewrite !list_ascii_of_string_app in E.
  apply app_inv_head in E. apply (f_equal string_of_list_ascii) in E.
  by rewrite !string_of_list_ascii_of_string in E.
Qed.

Lemma string_app_differs d x : x <> EmptyString -> (d ++ x)%string <> d.
Proof.
  intros Hx E%(f_equal list_ascii_of_string). rewrite list_ascii_of_string_app in E.
  apply (f_equal length) in E. rewrite length_app in E.
  destruct x; [done | cbn in E; lia].
Qed.

(** X13. A pass that ends with an exception writes no audit record:
    whichever step raised (decompression, the scan, or [gzip]), the audit
    file of the decompressed name holds what it held before the pass, or is
    still missing. *)
Theorem failed_pass_writes_no_audit c elapsed log_file (s s' : gmap string bytes) e :
  Fs.clean_file c elapsed log_file s = Some (s', inl e) ->
  s' !! (fst (Fs.splitext log_file) ++ ".audit")%string
  = s !! (fst (Fs.splitext log_file) ++ ".audit")%string.
Proof.
  set (root := fst (Fs.splitext log_file)).
  assert (N1 : (root ++ ".audit")%string <> root) by (by apply string_app_differs).
  assert (N2 : (root ++ ".audit")%string <> (root ++ Fs.redacted_suffix)%string)
    by (by intros E%string_app_inv).
  pose proof (audit_path_not_log root) as N3.
  unfold Fs.clean_file. intros H.
  pose proof (LOG_debug_frame c (Fs.Starting_processing log_file) s _ N3) as F0.
  destruct (Fs.decompress_file c log_file _) as [s1 [e1|dec]] eqn:D.
  - injection H as <- <-.
    by rewrite (decompress_file_frame _ _ _ _ _ _ D).
  - pose proof (decompress_file_name _ _ _ _ _ D) as ->. fold root in H.
    assert (F1 : s1 !! (root ++ ".audit")%string = s !! (root ++ ".audit")%string)
      by (by rewrite (decompress_file_frame _ _ _ _ _ _ D)).
    destruct (Fs.redact_data_at c elapsed root s1) as [[s2 [e2|a]]|] eqn:R;
      cbn [mbind option_bind] in H; [| |done].
    + injection H as <- <-.
      by rewrite (redact_data_at_frame _ _ _ _ _ _ _ R).
    + destruct (Fs.compress_file c root s2) as [s3 [e3|[]]] eqn:C; [|done].
      injection H as <- <-.
      rewrite (compress_file_frame _ _ _ _ _ _ C) by done.
      by rewrite (redact_data_at_frame _ _ _ _ _ _ _ R).
Qed.

Lemma failed_pass_writes_no_audit_witness :
  exists s',
    Fs.clean_file stored [] "empty.gz" fs_empty_archive = Some (s', inl ValueError)
    /\ s' !! "empty.audit"%string = None.
Proof.
  eexists. split; [vm_compute; reflexivity|].
  exact (failed_pass_writes_no_audit stored [] "empty.gz" fs_empty_archive _ _
           ltac:(vm_compute; reflexivity)).
Defined.









(** ** The name of the decompressed file *)

Lemma splitext_join p root ext :
  Fs.splitext p = (root, ext) -> (root ++ ext)%string = p.
Proof.
  intros H.
  assert (E : list_ascii_of_string (root ++ ext)%string = list_ascii_of_string p).
  { rewrite list_ascii_of_string_app. unfold Fs.splitext in H.
    destruct (_ <? _)%Z; [|injection H as <- <-; apply app_nil_r].
    destruct (forallb _ _); [injection H as <- <-; apply app_nil_r|].
    injection H as <- <-. rewrite !list_ascii_of_string_of_list_ascii. apply take_drop. }
  apply (f_equal string_of_list_ascii) in E.
  by rewrite !string_of_list_ascii_of_string in E.
Qed.

Lemma splitext_no_sep p root ext :
  Fs.splitext p = (root, ext) -> ~ In "/"%char (list_ascii_of_string ext).
Proof.
  unfold Fs.splitext, Fs.rfind. intros H.
  destruct (_ <? _)%Z eqn:Hlt; [|injection H as <- <-; cbn; tauto].
  destruct (forallb _ _); [injection H as <- <-; cbn; tauto|].
  injection H as <- <-. rewrite list_ascii_of_string_of_list_ascii.
  apply Z.ltb_lt in Hlt.
  intros Hin%list_elem_of_In%list_elem_of_lookup. destruct Hin as [j Hj].
  rewrite lookup_drop in Hj.
  destruct (rfind_from_spec "/"%char (list_ascii_of_string p) 0 ltac:(lia))
    as [[_ Hno]|(k & E & _ & Hlast)].
  - by apply (Hno _ _ Hj).
  - rewrite E in Hlt. refine (Hlast _ _ _ Hj eq_refl). lia.
Qed.

(** X15. [decompress_file] puts the decompressed log beside the archive,
    under the archive's name without its last extension: the name it
    returns is a prefix of the archive's name, what it drops holds no path
    separator, and is either nothing or one dot followed by dot-free text.
    In the second case the archive is still there, the returned name holds
    what the gzip reader yielded, and no other file changed. *)
Theorem decompress_file_strips_last_extension c p (s s' : gmap string bytes) dec :
  Fs.decompress_file c p s = (s', inr dec) ->
  exists ext,
    p = (dec ++ ext)%string
    /\ ~ In "/"%char (list_ascii_of_string ext)
    /\ (ext <> EmptyString ->
        exists rest archive,
          ext = String "."%char rest
          /\ ~ In "."%char (list_ascii_of_string rest)
          /\ s !! p = Some archive /\ s' !! p = Some archive
          /\ Fs.gzip_read c archive = (default [] (s' !! dec), true))
    /\ forall q, q <> dec -> s' !! q = s !! q.
Proof.
  intros H. pose proof (decompress_file_name _ _ _ _ _ H) as Hdec.
  destruct (Fs.splitext p) as [root ext] eqn:Hsplit. cbn [fst] in Hdec. subst dec.
  exists ext. split; [symmetry; by apply splitext_join|].
  split; [by eapply splitext_no_sep|].
  split.
  - intros Hext.
    destruct (splitext_ext _ _ _ Hsplit Hext) as (d & Hd & Hlast & _ & He).
    pose proof (splitext_root_differs _ _ _ Hsplit Hext) as Hne.
    exists (string_of_list_ascii (drop (S d) (list_ascii_of_string p))).
    unfold Fs.decompress_file in H. rewrite Hsplit in H. cbn [fst] in H.
    destruct (s !! p) as [archive|] eqn:Hs; [|done].
    rewrite lookup_insert_ne, Hs in H by done.
    change (default [] (Some archive)) with archive in H.
    exists archive.
    destruct (Fs.gzip_read c archive) as [out ok] eqn:Hread.
    destruct ok; [|done]. injection H as <-.
    split_and!.
    + rewrite He. rewrite (drop_S _ _ _ Hd). reflexivity.
    + rewrite list_ascii_of_string_of_list_ascii.
      intros Hin%list_elem_of_In%list_elem_of_lookup. destruct Hin as [j Hj].
      rewrite lookup_drop in Hj. refine (Hlast _ _ _ Hj eq_refl). lia.
    + reflexivity.
    + rewrite !lookup_insert_ne by done. exact Hs.
    + by rewrite lookup_insert_eq.
  - intros q Hq. apply (decompress_file_frame _ _ _ _ _ _ H).
    by rewrite Hsplit.
Qed.

Lemma decompress_file_strips_last_extension_witness :
  exists s',
    Fs.decompress_file stored "log.gz" fs_archive = (s', inr "log"%string)
    /\ exists ext, "log.gz"%string = ("log" ++ ext)%string
                   /\ ~ In "/"%char (list_ascii_of_string ext).
Proof.
  eexists. split; [vm_compute; reflexivity|].
  destruct (decompress_file_strips_last_extension stored "log.gz" fs_archive _ _
              ltac:(vm_compute; reflexivity)) as (ext & H1 & H2 & _).
  exists ext. split; [exact H1 | exact H2].
Defined.

(** ** The audit record *)

Lemma count_nl_app a b : count_nl (a ++ b) = count_nl a + count_nl b.
Proof. unfold count_nl. by rewrite List.filter_app, length_app. Qed.

Lemma count_nl_uint u :
  count_nl (list_byte_of_string (NilEmpty.string_of_uint u)) = 0.
Proof. induction u; cbn [NilEmpty.string_of_uint list_byte_of_string]; done. Qed.

Lemma count_nl_str_of_nat n : count_nl (Fs.str_of_nat n) = 0.
Proof. apply count_nl_uint. Qed.

Lemma lines_one_line l :
  count_nl l = 0 -> lines (l ++ [newline]) = [l ++ [newline]].
Proof.
  induction l as [|b l IH]; [done|]. unfold count_nl. cbn [List.filter app lines].
  destruct (is_nl b); [done|]. intros H. by rewrite (IH H).
Qed.

Lemma lines_line_then l rest :
  count_nl l = 0 -> lines ((l ++ [newline]) ++ rest) = (l ++ [newline]) :: lines rest.
Proof.
  intros H. rewrite lines_app_terminated by apply last_snoc.
  by rewrite lines_one_line.
Qed.

(** X16. [log_audit_metadata] appends one record to the [.audit] file and
    touches no other file: what the file held stays in front, and the
    record is five lines, one per counter in a fixed order and one for the
    time spent, since the decimal text of a counter holds no line feed
    (the text of the time spent is assumed to hold none either). *)
Theorem audit_record_is_five_lines elapsed logfile_name a (s : gmap string bytes) :
  count_nl elapsed = 0 ->
  Fs.log_audit_metadata elapsed logfile_name a s !! (logfile_name ++ ".audit")%string
    = Some (default [] (s !! (logfile_name ++ ".audit")%string)
            ++ Fs.audit_text elapsed a)
  /\ lines (Fs.audit_text elapsed a)
     = [ text "Total number of lines processed: "
           ++ Fs.str_of_nat (total_lines_processed a) ++ [newline];
         text "Total number of lines redacted: "
           ++ Fs.str_of_nat (total_lines_redacted a) ++ [newline];
         text "Total number of lines with Credit Card data redacted: "
           ++ Fs.str_of_nat (total_cc_lines_redacted a) ++ [newline];
         text "Total number of lines with SSN data redacted: "
           ++ Fs.str_of_nat (total_ssn_lines_redacted a) ++ [newline];
         text "Total time spent redacting: " ++ elapsed ++ [newline] ]
  /\ forall q, q <> (logfile_name ++ ".audit")%string ->
       Fs.log_audit_metadata elapsed logfile_name a s !! q = s !! q.
Proof.
  intros He. split_and!.
  - unfold Fs.log_audit_metadata. by rewrite lookup_insert_eq.
  - unfold Fs.audit_text, text.
    repeat match goal with
    | |- context [list_byte_of_string ?t ++ ?v ++ [newline] ++ ?r] =>
        replace (list_byte_of_string t ++ v ++ [newline] ++ r)
          with (((list_byte_of_string t ++ v) ++ [newline]) ++ r)
          by (by rewrite <- !app_assoc)
    end.
    rewrite !lines_line_then
      by (rewrite count_nl_app, count_nl_str_of_nat; reflexivity).
    rewrite (app_assoc _ elapsed). rewrite lines_one_line
      by (rewrite count_nl_app, He; reflexivity).
    by rewrite <- !app_assoc.
  - intros q Hq. by apply log_audit_metadata_frame.
Qed.

Lemma audit_record_is_five_lines_witness :
  length (lines (Fs.audit_text (text "0:00:00.000123")
                   {| total_lines_redacted := 1; total_lines_processed := 3;
                      total_cc_lines_redacted := 1; total_ssn_lines_redacted := 0 |})) = 5.
Proof.
  destruct (audit_record_is_five_lines (text "0:00:00.000123") "log"
              {| total_lines_redacted := 1; total_lines_processed := 3;
                 total_cc_lines_redacted := 1; total_ssn_lines_redacted := 0 |}
              fs_log ltac:(vm_compute; reflexivity)) as (_ & -> & _).
  reflexivity.
Defined.

(** ** The exit status of the program *)

Lemma clean_files_outcome (worker : string -> exn + unit) files_list :
  (Pool.raised (Pool.clean_files worker files_list) = None
   <-> forall fil, In fil files_list -> worker fil = inr tt)
  /\ Pool.collected (Pool.clean_files worker files_list) <= length files_list.
Proof.
  unfold Pool.clean_files.
  destruct (wait_all_spec (map worker files_list) 0)
    as [(H1 & H2 & H3)|(before & e & after & Hj & HB & HW)].
  - destruct (Pool.wait_all (map worker files_list) 0) as [n o]. cbn in H1, H2. subst o n.
    cbn. rewrite length_map. rewrite List.Forall_forall in H3.
    split; [|done]. split; [|done]. intros _ fil Hin. apply H3. by apply in_map.
  - rewrite HW. cbn.
    apply (f_equal length) in Hj as Hlen. rewrite length_map, length_app in Hlen. cbn in Hlen.
    apply map_eq_app in Hj as (fb & fr & -> & <- & Hr).
    destruct fr as [|fil fa]; [discriminate|]. cbn in Hr. injection Hr as Hfil _.
    split; [|lia]. split; [done|]. intros H. rewrite H in Hfil; [done|].
    apply in_or_app. right. by left.
Qed.

(** X17. [main] takes [sys.argv[1:]] as the files: the program's own name
    is never processed. The exit status is 0 exactly when the pass of
    every file argument succeeded; so a call without file arguments, which
    logs an error and runs nothing, also exits with status 0. Results are
    collected for at most as many files as were given. *)
Theorem main_exit_status (worker : string -> exn + unit) argv :
  (Main.exit_status (Main.main worker argv) = 0
   <-> forall fil, In fil (drop 1 argv) -> worker fil = inr tt)
  /\ (Main.logged (Main.main worker argv) = Main.ERROR <-> drop 1 argv = [])
  /\ (Main.batch (Main.main worker argv) = None <-> drop 1 argv = [])
  /\ forall b, Main.batch (Main.main worker argv) = Some b ->
       Pool.collected b <= length argv - 1
       /\ (Pool.pool_closed b = true <-> Main.exit_status (Main.main worker argv) = 0).
Proof.
  unfold Main.main. destruct argv as [|prog [|fil files]].
  - cbn. split_and!; try done.
  - cbn. split_and!; try done.
  - change (length (prog :: fil :: files) <? 2) with false.
    change (drop 1 (prog :: fil :: files)) with (fil :: files).
    cbn [Main.exit_status Main.logged Main.batch].
    destruct (clean_files_outcome worker (fil :: files)) as [Hnone Hle].
    split_and!; try done.
    + rewrite <- Hnone. by destruct (Pool.raised _).
    + intros b [= <-]. split; [cbn [length] in *; lia|].
      unfold Pool.clean_files.
      destruct (Pool.wait_all _ 0) as [n [e|]]; cbn; done.
Qed.
